(** * DebuggerModuleTable: the debugger's registry of loaded modules

    A shallow embedding of [src/coreclr/debug/ee/debuggermodule.cpp]:
    the [DebuggerModule] shadow record with its one mutator, and the
    [DebuggerModuleTable] registry built on the [CHashTableAndData] base
    class.

    Conventions of the embedding.
    - Pointers ([Module*], [AppDomain*], [DebuggerModule*]) are target
      addresses, natural numbers of type [N]; [NULL] is [0].
    - [DebuggerModule] objects live in a store ([mem]), a finite map from
      addresses to records.  The table holds addresses, never copies, so
      a write through one pointer is seen through every alias, and
      [DeleteInteropSafe] really ends the life of a record.
    - Member functions are state transformers in the monad [M]; reading
      through an address that holds no live record is [Undefined].
    - [while] and [for] loops take fuel; the theorems show how much is
      enough.
    - [_ASSERTE], [CONTRACTL] and [LOG] are diagnostics of checked builds and
      are left out: the embedding is that of the retail build. *)

From Stdlib Require Import NArith Lia.
From stdpp Require Import base numbers option list gmap.

Local Open Scope N_scope.

(** ** Addresses *)

Definition TADDR : Type := N.
Definition NULL : TADDR := 0.

Definition PTR_Module : Type := TADDR.
Definition PTR_AppDomain : Type := TADDR.
Definition PTR_DebuggerModule : Type := TADDR.

(** ** DebuggerModule, the shadow record *)

(** Modelled from the spec: the class declaration of [DebuggerModule] is in a
    header outside the sources; the spec gives it three fields, the engine
    module, the owning isolation domain and the flag that
    [SetCanChangeJitFlags] writes.  The first two are named after the
    accessors [GetRuntimeModule] and [GetAppDomain] used by the table. *)
Record DebuggerModule : Type := mkDebuggerModule {
  m_pRuntimeModule : PTR_Module;
  m_pAppDomain : PTR_AppDomain;
  m_fCanChangeJitFlags : bool
}.

Global Instance DebuggerModule_eq_dec : EqDecision DebuggerModule.
Proof. solve_decision. Defined.

(** ** The CHashTableAndData base class *)

Module CHashTable.

(** Modelled from the spec: [DebuggerModuleEntry] is declared in a header
    outside the sources; the table code reads and writes its one payload
    field, [module]. *)
Record DebuggerModuleEntry : Type := mkEntry {
  module : PTR_DebuggerModule
}.

(** Modelled from the spec: an entry of the table is addressed by the
    chain it is linked in and its place in that chain. *)
Definition PTR_HASHENTRY : Type := (nat * nat)%type.

(** Modelled from the spec: the iteration cursor, the chain being walked
    and the place of the next entry in it. *)
Record HASHFIND : Type := mkHASHFIND {
  iBucket : nat;
  iNext : nat
}.

(** Modelled from the spec: [CHashTableAndData] is declared in a header
    outside the sources.  The spec calls it an open hash index whose entries
    are filed under the hash of the engine module's identity and iterated in
    hash-bucket order: an array of chains of entries. *)
Record CHashTableAndData : Type := mkTable {
  m_piBuckets : list (list DebuggerModuleEntry)
}.

Definition m_iBuckets (t : CHashTableAndData) : nat := length (m_piBuckets t).

(** Modelled from the spec: the base-class constructor called with the number
    of buckets; every chain starts empty. *)
Definition CHashTableAndData_ctor (iBuckets : nat) : CHashTableAndData :=
  mkTable (replicate iBuckets []).

(** The chain an [iHash] selects: [iHash % m_iBuckets]. *)
Definition bucket_of (t : CHashTableAndData) (iHash : N) : nat :=
  N.to_nat (iHash mod N.of_nat (m_iBuckets t)).

Definition EntryPtr (t : CHashTableAndData) (p : PTR_HASHENTRY)
  : option DebuggerModuleEntry :=
  c ← m_piBuckets t !! p.1; c !! p.2.

(** Modelled from the spec: [Add(iHash)] obtains an entry, zero-filled by the
    [CNewZeroData] allocator, links it at the head of the chain of [iHash]
    and returns its address; it returns [None] (the C++ NULL) and leaves the
    table alone when the entry cannot be allocated.  [fAlloc] is the
    allocator's answer. *)
Definition Add (iHash : N) (fAlloc : bool) (t : CHashTableAndData)
  : option (PTR_HASHENTRY * CHashTableAndData) :=
  if fAlloc then
    let b := bucket_of t iHash in
    Some ((b, 0%nat), mkTable (alter (cons (mkEntry NULL)) b (m_piBuckets t)))
  else None.

(** The write [pEntry->module = pModule]. *)
Definition set_module (p : PTR_HASHENTRY) (pModule : PTR_DebuggerModule)
    (t : CHashTableAndData) : option CHashTableAndData :=
  match m_piBuckets t !! p.1 with
  | Some c =>
      if decide (p.2 < length c)%nat
      then Some (mkTable (<[p.1 := <[p.2 := mkEntry pModule]> c]> (m_piBuckets t)))
      else None
  | None => None
  end.

(** Modelled from the spec: [Delete(iHash, psEntry)] unlinks the entry from
    the chain of [iHash].  Unlinking an entry that is not in that chain is
    outside the contract of the base class: [None]. *)
Definition Delete (iHash : N) (p : PTR_HASHENTRY) (t : CHashTableAndData)
  : option CHashTableAndData :=
  if decide (p.1 = bucket_of t iHash) then
    match m_piBuckets t !! p.1 with
    | Some c =>
        if decide (p.2 < length c)%nat
        then Some (mkTable (<[p.1 := delete p.2 c]> (m_piBuckets t)))
        else None
    | None => None
    end
  else None.

(** Modelled from the spec: the base-class [Clear] empties every chain. *)
Definition Clear (t : CHashTableAndData) : CHashTableAndData :=
  mkTable (replicate (m_iBuckets t) []).

(** Modelled from the spec: [FindNextEntry] yields the entry under the cursor
    and advances; at the end of a chain it moves on to the next chain, and
    after the last chain it yields [None]. *)
Fixpoint FindNextEntry_from (chains : list (list DebuggerModuleEntry))
    (b i : nat) : option PTR_HASHENTRY * HASHFIND :=
  match chains with
  | [] => (None, mkHASHFIND b i)
  | c :: rest =>
      if decide (i < length c)%nat
      then (Some (b, i), mkHASHFIND b (S i))
      else FindNextEntry_from rest (S b) 0
  end.

Definition FindNextEntry (t : CHashTableAndData) (psSrch : HASHFIND)
  : option PTR_HASHENTRY * HASHFIND :=
  FindNextEntry_from (drop (iBucket psSrch) (m_piBuckets t))
                     (iBucket psSrch) (iNext psSrch).

Definition FindFirstEntry (t : CHashTableAndData)
  : option PTR_HASHENTRY * HASHFIND :=
  FindNextEntry t (mkHASHFIND 0 0).

End CHashTable.

Import CHashTable.

(** ** The machine state and the monad of member functions *)

Record State : Type := mkState {
  mem : gmap TADDR DebuggerModule;
  dmt : CHashTableAndData
}.

Inductive Result (A : Type) : Type :=
| Done (a : A) (s : State)
| Throw_OutOfMemory (s : State)
| Undefined
| OutOfFuel.
Arguments Done {A} a s.
Arguments Throw_OutOfMemory {A} s.
Arguments Undefined {A}.
Arguments OutOfFuel {A}.

Definition M (A : Type) : Type := State → Result A.

Global Instance M_ret : MRet M := λ A a s, Done a s.
Global Instance M_bind : MBind M := λ A B f c s,
  match c s with
  | Done a s' => f a s'
  | Throw_OutOfMemory s' => Throw_OutOfMemory s'
  | Undefined => Undefined
  | OutOfFuel => OutOfFuel
  end.

Definition out_of_fuel {A} : M A := λ _, OutOfFuel.
Definition undefined {A} : M A := λ _, Undefined.
Definition ThrowOutOfMemory {A} : M A := λ s, Throw_OutOfMemory s.

(** The state a computation leaves behind, when it leaves one. *)
Definition state_of {A} (r : Result A) : option State :=
  match r with
  | Done _ s | Throw_OutOfMemory s => Some s
  | Undefined | OutOfFuel => None
  end.

(** Lifting an optional value: [None] is an invalid access. *)
Definition get_opt {A} (f : State → option A) : M A := λ s,
  match f s with Some a => Done a s | None => Undefined end.

(** Lifting a fallible update of the table. *)
Definition upd_table (f : CHashTableAndData → option CHashTableAndData) : M () := λ s,
  match f (dmt s) with
  | Some t => Done () (mkState (mem s) t)
  | None => Undefined
  end.

(** ** Accessors of DebuggerModule, through a pointer *)

Definition GetRuntimeModule (this : PTR_DebuggerModule) : M PTR_Module :=
  get_opt (λ s, m_pRuntimeModule <$> mem s !! this).

Definition GetAppDomain (this : PTR_DebuggerModule) : M PTR_AppDomain :=
  get_opt (λ s, m_pAppDomain <$> mem s !! this).

(** [DebuggerModule::SetCanChangeJitFlags]:
    [m_fCanChangeJitFlags = fCanChangeJitFlags]. *)
Definition SetCanChangeJitFlags (this : PTR_DebuggerModule)
    (fCanChangeJitFlags : bool) : M () := λ s,
  match mem s !! this with
  | Some dm =>
      Done () (mkState
        (<[this := mkDebuggerModule (m_pRuntimeModule dm) (m_pAppDomain dm)
                     fCanChangeJitFlags]> (mem s))
        (dmt s))
  | None => Undefined
  end.

(** Modelled from the spec: [DeleteInteropSafe] destroys the shadow record;
    its definition is outside the sources. *)
Definition DeleteInteropSafe (p : PTR_DebuggerModule) : M () := λ s,
  match mem s !! p with
  | Some _ => Done () (mkState (delete p (mem s)) (dmt s))
  | None => Undefined
  end.

(** ** DebuggerModuleTable *)

Module DebuggerModuleTable.

(** Modelled from the spec: [HASH], [KEY] and [Cmp] are inline members
    declared in a header outside the sources.  The spec files an entry under
    the hash of the raw identity value of the engine module: [HASH] is the
    address cut to a 32-bit [ULONG], [KEY] the address itself, and [Cmp]
    tells (C style, false on a match) whether an entry's record is for the
    module of the key. *)
Definition HASH (module : PTR_Module) : N := N.land module (N.ones 32).
Definition KEY (module : PTR_Module) : N := module.

Definition Cmp (k1 : N) (pc2 : DebuggerModuleEntry) : M bool :=
  rt ← GetRuntimeModule (CHashTable.module pc2);
  mret (negb (k1 =? rt)).

(** Modelled from the spec: [Find(iHash, key)] walks the chain of [iHash]
    and yields the first entry that [Cmp] matches with [key]. *)
Fixpoint Find_chain (key : N) (b i : nat) (c : list DebuggerModuleEntry)
  : M (option PTR_HASHENTRY) :=
  match c with
  | [] => mret None
  | e :: c' =>
      Cmp key e ≫= λ ne : bool,
        if ne then Find_chain key b (S i) c' else mret (Some (b, i))
  end.

Definition Find (iHash : N) (key : N) : M (option PTR_HASHENTRY) := λ s,
  let b := bucket_of (dmt s) iHash in
  match m_piBuckets (dmt s) !! b with
  | Some c => Find_chain key b 0 c s
  | None => Undefined
  end.

(** [pDME->module]. *)
Definition entry_module (pDME : PTR_HASHENTRY) : M PTR_DebuggerModule :=
  get_opt (λ s, CHashTable.module <$> EntryPtr (dmt s) pDME).

Definition FindFirstEntry_ : M (option PTR_HASHENTRY * HASHFIND) :=
  λ s, Done (FindFirstEntry (dmt s)) s.

Definition FindNextEntry_ (hf : HASHFIND) : M (option PTR_HASHENTRY * HASHFIND) :=
  λ s, Done (FindNextEntry (dmt s) hf) s.

Definition Add_ (iHash : N) (fAlloc : bool) : M (option PTR_HASHENTRY) := λ s,
  match Add iHash fAlloc (dmt s) with
  | Some (pEntry, t) => Done (Some pEntry) (mkState (mem s) t)
  | None => Done None s
  end.

(** The constructor: [CHashTableAndData<CNewZeroData>(101)] and
    [NewInit(101, sizeof(DebuggerModuleEntry), 101)]. *)
Definition DebuggerModuleTable_ctor : CHashTableAndData :=
  CHashTableAndData_ctor 101.

(** [DebuggerModuleTable::GetModule] with a module and an application domain. *)
Fixpoint GetModule2_loop (fuel : nat) (module : PTR_Module)
    (pAppDomain : PTR_AppDomain) (moduleentry : option PTR_HASHENTRY)
    (findmodule : HASHFIND) : M (option PTR_DebuggerModule) :=
  match fuel with
  | O => out_of_fuel
  | S fuel' =>
      match moduleentry with
      | None => mret None
      | Some e =>
          pModule ← entry_module e;
          rt ← GetRuntimeModule pModule;
          ad ← GetAppDomain pModule;
          if (rt =? module) && (ad =? pAppDomain) then mret (Some pModule)
          else
            '(e', hf') ← FindNextEntry_ findmodule;
            GetModule2_loop fuel' module pAppDomain e' hf'
      end
  end.

Definition GetModule2 (fuel : nat) (module : PTR_Module)
    (pAppDomain : PTR_AppDomain) : M (option PTR_DebuggerModule) :=
  '(e, hf) ← FindFirstEntry_;
  GetModule2_loop fuel module pAppDomain e hf.

(** [DebuggerModuleTable::GetModule] with a module alone. *)
Definition GetModule (module : PTR_Module) : M (option PTR_DebuggerModule) :=
  entry ← Find (HASH module) (KEY module);
  match entry with
  | None => mret None
  | Some e => pDM ← entry_module e; mret (Some pDM)
  end.

(** [DebuggerModuleTable::GetFirstModule] and [GetNextModule]; the cursor
    [info] is the caller's, it comes back with the result. *)
Definition GetFirstModule : M (option PTR_DebuggerModule * HASHFIND) :=
  '(entry, info) ← FindFirstEntry_;
  match entry with
  | None => mret (None, info)
  | Some e => pDM ← entry_module e; mret (Some pDM, info)
  end.

Definition GetNextModule (info : HASHFIND)
  : M (option PTR_DebuggerModule * HASHFIND) :=
  '(entry, info') ← FindNextEntry_ info;
  match entry with
  | None => mret (None, info')
  | Some e => pDM ← entry_module e; mret (Some pDM, info')
  end.

(** [DebuggerModuleTable::AddModule]. *)
Definition AddModule (fAlloc : bool) (pModule : PTR_DebuggerModule) : M () :=
  rt ← GetRuntimeModule pModule;
  pEntry ← Add_ (HASH rt) fAlloc;
  match pEntry with
  | None => ThrowOutOfMemory
  | Some e => upd_table (set_module e pModule)
  end.

(** [DebuggerModuleTable::RemoveModule]. *)
Fixpoint RemoveModule_loop (fuel : nat) (pModule : PTR_Module)
    (pAppDomain : PTR_AppDomain) (pDME : option PTR_HASHENTRY)
    (hf : HASHFIND) : M () :=
  match fuel with
  | O => out_of_fuel
  | S fuel' =>
      match pDME with
      | None => mret ()
      | Some e =>
          pDM ← entry_module e;
          pRuntimeModule ← GetRuntimeModule pDM;
          ad ← GetAppDomain pDM;
          if (pRuntimeModule =? pModule) && (ad =? pAppDomain) then
            DeleteInteropSafe pDM;;
            upd_table (Delete (HASH pRuntimeModule) e)
          else
            '(e', hf') ← FindNextEntry_ hf;
            RemoveModule_loop fuel' pModule pAppDomain e' hf'
      end
  end.

Definition RemoveModule (fuel : nat) (pModule : PTR_Module)
    (pAppDomain : PTR_AppDomain) : M () :=
  '(e, hf) ← FindFirstEntry_;
  RemoveModule_loop fuel pModule pAppDomain e hf.

(** [DebuggerModuleTable::RemoveModules]. *)
Fixpoint RemoveModules_loop (n fuel : nat) (pAppDomain : PTR_AppDomain)
    (pDME : option PTR_HASHENTRY) (hf : HASHFIND) : M () :=
  match n with
  | O => out_of_fuel
  | S n' =>
      match pDME with
      | None => mret ()
      | Some e =>
          pDM ← entry_module e;
          ad ← GetAppDomain pDM;
          if ad =? pAppDomain then
            rt ← GetRuntimeModule pDM;
            RemoveModule fuel rt pAppDomain;;
            '(e', hf') ← FindFirstEntry_;
            RemoveModules_loop n' fuel pAppDomain e' hf'
          else
            '(e', hf') ← FindNextEntry_ hf;
            RemoveModules_loop n' fuel pAppDomain e' hf'
      end
  end.

Definition RemoveModules (fuel : nat) (pAppDomain : PTR_AppDomain) : M () :=
  '(e, hf) ← FindFirstEntry_;
  RemoveModules_loop fuel fuel pAppDomain e hf.

(** [DebuggerModuleTable::Clear]. *)
Fixpoint Clear_loop (fuel : nat) (pDME : option PTR_HASHENTRY) : M () :=
  match fuel with
  | O => out_of_fuel
  | S fuel' =>
      match pDME with
      | None => mret ()
      | Some e =>
          pDM ← entry_module e;
          pEEM ← GetRuntimeModule pDM;
          DeleteInteropSafe pDM;;
          upd_table (Delete (HASH pEEM) e);;
          '(e', _) ← FindFirstEntry_;
          Clear_loop fuel' e'
      end
  end.

Definition Clear (fuel : nat) : M () :=
  '(e, _) ← FindFirstEntry_;
  Clear_loop fuel e;;
  upd_table (λ t, Some (CHashTable.Clear t)).

End DebuggerModuleTable.

Import DebuggerModuleTable.

(** * Reasoning about the embedding *)

(** ** Stepping through monadic code *)

Lemma bind_Done {A B} (c : M A) (f : A → M B) s a s' :
  c s = Done a s' → (c ≫= f) s = f a s'.
Proof. intros H. unfold mbind, M_bind. by rewrite H. Qed.

(** A computation that at most reads the state: it faults, runs out of fuel,
    or returns in the state it started from. *)
Definition reads_only {A} (c : M A) : Prop :=
  ∀ s, c s = Undefined ∨ c s = OutOfFuel ∨ ∃ a, c s = Done a s.

Lemma reads_only_bind {A B} (c : M A) (f : A → M B) :
  reads_only c → (∀ a, reads_only (f a)) → reads_only (c ≫= f).
Proof.
  intros Hc Hf s. unfold mbind, M_bind.
  destruct (Hc s) as [->|[->|[a ->]]]; auto. apply Hf.
Qed.

Lemma reads_only_ret {A} (a : A) : reads_only (mret a).
Proof. intros s. right. right. by exists a. Qed.

Lemma reads_only_get_opt {A} (f : State → option A) : reads_only (get_opt f).
Proof. intros s. unfold get_opt. destruct (f s); eauto. Qed.

Lemma GetRuntimeModule_Done this dm s :
  mem s !! this = Some dm →
  GetRuntimeModule this s = Done (m_pRuntimeModule dm) s.
Proof. intros H. unfold GetRuntimeModule, get_opt. by rewrite H. Qed.

Lemma GetAppDomain_Done this dm s :
  mem s !! this = Some dm →
  GetAppDomain this s = Done (m_pAppDomain dm) s.
Proof. intros H. unfold GetAppDomain, get_opt. by rewrite H. Qed.

Lemma entry_module_Done p e s :
  EntryPtr (dmt s) p = Some e →
  entry_module p s = Done (CHashTable.module e) s.
Proof. intros H. unfold entry_module, get_opt. by rewrite H. Qed.

(** ** The entries of a table, in iteration order *)

Definition entries (t : CHashTableAndData) : list DebuggerModuleEntry :=
  mjoin (m_piBuckets t).

(** The records the table points to, in iteration order. *)
Definition modules (s : State) : list PTR_DebuggerModule :=
  CHashTable.module <$> entries (dmt s).

(** Entries paired with their addresses. *)
Fixpoint chain_from (b i : nat) (c : list DebuggerModuleEntry)
  : list (PTR_HASHENTRY * DebuggerModuleEntry) :=
  match c with
  | [] => []
  | e :: c' => ((b, i), e) :: chain_from b (S i) c'
  end.

Fixpoint indexed_from (b : nat) (chains : list (list DebuggerModuleEntry))
  : list (PTR_HASHENTRY * DebuggerModuleEntry) :=
  match chains with
  | [] => []
  | c :: rest => chain_from b 0 c ++ indexed_from (S b) rest
  end.

Definition indexed (t : CHashTableAndData) :=
  indexed_from 0 (m_piBuckets t).

(** What a cursor has still to yield. *)
Definition cursor_rest (t : CHashTableAndData) (hf : HASHFIND)
  : list (PTR_HASHENTRY * DebuggerModuleEntry) :=
  match drop (iBucket hf) (m_piBuckets t) with
  | [] => []
  | c :: rest =>
      chain_from (iBucket hf) (iNext hf) (drop (iNext hf) c)
        ++ indexed_from (S (iBucket hf)) rest
  end.

(** A loop variable [pDME] and its cursor stand before the entries [r]. *)
Definition at_cursor (t : CHashTableAndData) (pDME : option PTR_HASHENTRY)
    (hf : HASHFIND) (r : list (PTR_HASHENTRY * DebuggerModuleEntry)) : Prop :=
  match r with
  | [] => pDME = None
  | pe :: r' => pDME = Some pe.1 ∧ cursor_rest t hf = r'
  end.

Lemma chain_from_snd b i c : (chain_from b i c).*2 = c.
Proof. revert i. induction c as [|e c IH]; intros i; simpl; [done|]. by rewrite IH. Qed.

Lemma indexed_from_snd b chains : (indexed_from b chains).*2 = mjoin chains.
Proof.
  revert b. induction chains as [|c rest IH]; intros b; simpl; [done|].
  by rewrite fmap_app, chain_from_snd, IH.
Qed.

Lemma indexed_snd t : (indexed t).*2 = entries t.
Proof. apply indexed_from_snd. Qed.

Lemma length_indexed t : length (indexed t) = length (entries t).
Proof. by rewrite <- indexed_snd, length_fmap. Qed.

Lemma chain_from_split b i c l1 p e l2 :
  chain_from b i c = l1 ++ (p, e) :: l2 →
  p = (b, (i + length l1)%nat) ∧ c = l1.*2 ++ e :: l2.*2.
Proof.
  revert i c. induction l1 as [|x l1 IH]; intros i c H; destruct c as [|e0 c];
    simpl in *; try discriminate.
  - injection H as <- <- <-. split; [f_equal; lia|]. by rewrite chain_from_snd.
  - injection H as <- H. apply IH in H as [-> ->]. split; [f_equal; lia|done].
Qed.

Lemma indexed_from_split chains : ∀ b0 l1 p e l2,
  indexed_from b0 chains = l1 ++ (p, e) :: l2 →
  ∃ k c, p.1 = (b0 + k)%nat ∧ chains !! k = Some c ∧ c !! p.2 = Some e ∧
         mjoin (<[k := delete p.2 c]> chains) = l1.*2 ++ l2.*2.
Proof.
  induction chains as [|c0 rest IH]; intros b0 l1 p e l2 H; simpl in H.
  { by destruct l1. }
  apply List.app_eq_app in H as [l [[H1 H2]|[H1 H2]]].
  - destruct l as [|x l]; simpl in H2.
    + rewrite app_nil_r in H1. subst l1. symmetry in H2.
      apply (IH (S b0) []) in H2 as (k & c & Hp & Hk & He & Hc).
      exists (S k), c. split_and!; [lia|done|done|].
      simpl. rewrite Hc. by rewrite chain_from_snd.
    + injection H2 as <- ->.
      apply chain_from_split in H1 as [-> ->]. simpl.
      exists 0%nat, (l1.*2 ++ e :: l.*2). split_and!; [lia|done| |].
      * rewrite lookup_app_r by (rewrite length_fmap; lia).
        rewrite length_fmap. by replace (length l1 - length l1)%nat with 0%nat by lia.
      * simpl. rewrite <- (length_fmap snd l1) at 1.
        rewrite delete_middle, fmap_app, indexed_from_snd.
        by rewrite <- !app_assoc.
  - subst l1.
    apply IH in H2 as (k & c & Hp & Hk & He & Hc).
    exists (S k), c. split_and!; [lia|done|done|].
    simpl. rewrite Hc, fmap_app, chain_from_snd. by rewrite app_assoc.
Qed.

Lemma indexed_split t l1 p e l2 :
  indexed t = l1 ++ (p, e) :: l2 →
  ∃ c, m_piBuckets t !! p.1 = Some c ∧ c !! p.2 = Some e ∧
       mjoin (<[p.1 := delete p.2 c]> (m_piBuckets t)) = l1.*2 ++ l2.*2.
Proof.
  intros H. apply indexed_from_split in H as (k & c & Hp & Hk & He & Hc).
  simpl in Hp. subst k. eauto.
Qed.

Lemma indexed_EntryPtr t l1 p e l2 :
  indexed t = l1 ++ (p, e) :: l2 → EntryPtr t p = Some e.
Proof.
  intros H. apply indexed_split in H as (c & Hc & He & _).
  unfold EntryPtr. by rewrite Hc.
Qed.

(** ** The cursor *)

Lemma cursor_rest_chain_start t b :
  cursor_rest t (mkHASHFIND b 0) = indexed_from b (drop b (m_piBuckets t)).
Proof. unfold cursor_rest. simpl. by destruct (drop b (m_piBuckets t)). Qed.

Lemma cursor_rest_start t : cursor_rest t (mkHASHFIND 0 0) = indexed t.
Proof. by rewrite cursor_rest_chain_start. Qed.

Lemma drop_cons_S {A} (l : list A) n x k : drop n l = x :: k → drop (S n) l = k.
Proof.
  intros H. replace (S n) with (n + 1)%nat by lia.
  by rewrite <- drop_drop, H.
Qed.

Lemma FindNextEntry_from_at t chains : ∀ b i,
  drop b (m_piBuckets t) = chains →
  at_cursor t (FindNextEntry_from chains b i).1 (FindNextEntry_from chains b i).2
            (cursor_rest t (mkHASHFIND b i)).
Proof.
  induction chains as [|c rest IH]; intros b i Hd.
  - unfold cursor_rest. simpl. by rewrite Hd.
  - simpl. case_decide as Hi.
    + destruct (lookup_lt_is_Some_2 c i Hi) as [e He].
      unfold cursor_rest at 1. simpl. rewrite Hd.
      rewrite (drop_S c e i He). simpl. split; [done|].
      unfold cursor_rest. simpl. by rewrite Hd.
    + unfold cursor_rest. simpl. rewrite Hd.
      rewrite drop_ge by lia. simpl.
      specialize (IH (S b) 0%nat (drop_cons_S _ _ _ _ Hd)).
      rewrite cursor_rest_chain_start, (drop_cons_S _ _ _ _ Hd) in IH. done.
Qed.

Lemma FindNextEntry_at t hf :
  at_cursor t (FindNextEntry t hf).1 (FindNextEntry t hf).2 (cursor_rest t hf).
Proof. destruct hf as [b i]. by apply FindNextEntry_from_at. Qed.

Lemma FindFirstEntry_at t :
  at_cursor t (FindFirstEntry t).1 (FindFirstEntry t).2 (indexed t).
Proof. rewrite <- cursor_rest_start. apply FindNextEntry_at. Qed.

(** ** Consistent states *)

(** Every entry points to a live record and is linked in the chain of its
    record's engine module. *)
Definition placed (s : State) : Prop :=
  ∀ b c e, m_piBuckets (dmt s) !! b = Some c → e ∈ c →
    ∃ dm, mem s !! CHashTable.module e = Some dm ∧
          bucket_of (dmt s) (HASH (m_pRuntimeModule dm)) = b.

(** A consistent state: the table has the 101 buckets its constructor gave
    it, its entries are placed, and it is the only owner of its records (no
    record is entered twice). *)
Record consistent (s : State) : Prop := mkConsistent {
  cons_buckets : m_iBuckets (dmt s) = 101%nat;
  cons_placed : placed s;
  cons_nodup : NoDup (modules s)
}.

Lemma elem_of_entries t e :
  e ∈ entries t ↔ ∃ b c, m_piBuckets t !! b = Some c ∧ e ∈ c.
Proof.
  unfold entries. rewrite list_elem_of_join. split.
  - intros (c & He & Hc). apply list_elem_of_lookup in Hc as [b Hb]. eauto.
  - intros (b & c & Hb & He). exists c. split; [done|].
    apply list_elem_of_lookup. eauto.
Qed.

Lemma placed_live s e :
  placed s → e ∈ entries (dmt s) → is_Some (mem s !! CHashTable.module e).
Proof.
  intros Hp (b & c & Hb & He)%elem_of_entries.
  destruct (Hp b c e Hb He) as (dm & Hdm & _). eauto.
Qed.

Lemma placed_indexed s l1 p e l2 :
  placed s → indexed (dmt s) = l1 ++ (p, e) :: l2 →
  ∃ dm, mem s !! CHashTable.module e = Some dm ∧
        bucket_of (dmt s) (HASH (m_pRuntimeModule dm)) = p.1.
Proof.
  intros Hp (c & Hc & He & _)%indexed_split.
  apply (Hp _ c); [done|]. apply list_elem_of_lookup. eauto.
Qed.

Lemma modules_live s p :
  placed s → p ∈ modules s → is_Some (mem s !! p).
Proof.
  intros Hp (e & -> & He)%list_elem_of_fmap. by apply placed_live.
Qed.

(** Unlinking an entry and destroying its record keeps the state
    consistent. *)
Lemma delete_entry_consistent s l1 p e l2 dm :
  consistent s →
  indexed (dmt s) = l1 ++ (p, e) :: l2 →
  mem s !! CHashTable.module e = Some dm →
  ∃ t', Delete (HASH (m_pRuntimeModule dm)) p (dmt s) = Some t' ∧
        entries t' = l1.*2 ++ l2.*2 ∧
        m_iBuckets t' = m_iBuckets (dmt s) ∧
        consistent (mkState (delete (CHashTable.module e) (mem s)) t').
Proof.
  intros [Hb Hp Hn] Hix Hdm.
  destruct (placed_indexed _ _ _ _ _ Hp Hix) as (dm' & Hdm' & Hbk).
  rewrite Hdm in Hdm'. injection Hdm' as <-.
  destruct (indexed_split _ _ _ _ _ Hix) as (c & Hc & He & Hcat).
  unfold Delete. rewrite Hbk, decide_True by done. rewrite Hc.
  rewrite decide_True by (by eapply lookup_lt_Some).
  eexists. split; [done|].
  assert (Hent : entries (mkTable (<[p.1:=delete p.2 c]> (m_piBuckets (dmt s))))
                 = l1.*2 ++ l2.*2) by done.
  assert (Hlen : m_iBuckets (mkTable (<[p.1:=delete p.2 c]> (m_piBuckets (dmt s))))
                 = m_iBuckets (dmt s)).
  { unfold m_iBuckets. simpl. by rewrite length_insert. }
  split_and!; [done|done|].
  assert (Hmods : modules s = (CHashTable.module <$> l1.*2) ++
            CHashTable.module e :: (CHashTable.module <$> l2.*2)).
  { unfold modules. rewrite <- indexed_snd, Hix. by rewrite !fmap_app. }
  rewrite Hmods in Hn. apply NoDup_app in Hn as (Hn1 & Hn12 & Hn2).
  apply NoDup_cons in Hn2 as [Hn2 Hn3].
  constructor; simpl.
  - by rewrite Hlen.
  - intros b c' e' Hc' He'. simpl in *.
    assert (He'' : e' ∈ l1.*2 ++ l2.*2).
    { rewrite <- Hent. apply elem_of_entries. simpl. eauto. }
    assert (∃ c0, m_piBuckets (dmt s) !! b = Some c0 ∧ e' ∈ c0) as (c0 & Hc0 & He0).
    { destruct (decide (b = p.1)) as [->|Hne].
      - rewrite list_lookup_insert_eq in Hc' by (by eapply lookup_lt_Some).
        injection Hc' as <-. exists c. split; [done|].
        eapply list_elem_of_lookup. apply list_elem_of_lookup in He' as [j Hj].
        destruct (decide (j < p.2)%nat).
        + rewrite list_lookup_delete_lt in Hj by done. eauto.
        + rewrite list_lookup_delete_ge in Hj by lia. eauto.
      - rewrite list_lookup_insert_ne in Hc' by done. eauto. }
    destruct (Hp b c0 e' Hc0 He0) as (dm' & Hdm' & Hb').
    exists dm'. split.
    + rewrite lookup_delete_ne; [done|].
      intros Heq. apply elem_of_app in He'' as [He''|He''].
      * apply (Hn12 (CHashTable.module e')).
        -- apply list_elem_of_fmap. eauto.
        -- rewrite <- Heq. left.
      * apply Hn2. rewrite Heq. apply list_elem_of_fmap. eauto.
    + unfold bucket_of in *. by rewrite Hlen.
  - unfold modules. simpl. rewrite Hent, fmap_app.
    apply NoDup_app. split_and!; [done| |done].
    intros x Hx1 Hx2. apply (Hn12 x Hx1). by right.
Qed.

(** ** Predicates on record pointers, and two list functions *)

(** The record at [p] is for module [m] in domain [d]. *)
Definition is_for (h : gmap TADDR DebuggerModule) (m : PTR_Module)
    (d : PTR_AppDomain) (p : PTR_DebuggerModule) : bool :=
  match h !! p with
  | Some dm => (m_pRuntimeModule dm =? m) && (m_pAppDomain dm =? d)
  | None => false
  end.

(** The record at [p] belongs to domain [d]. *)
Definition in_domain (h : gmap TADDR DebuggerModule) (d : PTR_AppDomain)
    (p : PTR_DebuggerModule) : bool :=
  match h !! p with
  | Some dm => m_pAppDomain dm =? d
  | None => false
  end.

(** The record at [p] is for module [m]. *)
Definition of_module (h : gmap TADDR DebuggerModule) (m : PTR_Module)
    (p : PTR_DebuggerModule) : bool :=
  match h !! p with
  | Some dm => m_pRuntimeModule dm =? m
  | None => false
  end.

(** The first element that satisfies [f]. *)
Fixpoint first_such {A} (f : A → bool) (l : list A) : option A :=
  match l with
  | [] => None
  | x :: l' => if f x then Some x else first_such f l'
  end.

(** The list without its first element that satisfies [f]. *)
Fixpoint remove_first {A} (f : A → bool) (l : list A) : list A :=
  match l with
  | [] => []
  | x :: l' => if f x then l' else x :: remove_first f l'
  end.

(** The store after the records at [ps] are destroyed. *)
Definition free_all (ps : list PTR_DebuggerModule)
    (h : gmap TADDR DebuggerModule) : gmap TADDR DebuggerModule :=
  foldr delete h ps.

Section list_facts.
Context {A : Type}.
Implicit Types (f g : A → bool) (l : list A).

Lemma first_such_app f l1 l2 :
  first_such f (l1 ++ l2) =
    match first_such f l1 with Some x => Some x | None => first_such f l2 end.
Proof. induction l1 as [|x l1 IH]; simpl; [done|]. by destruct (f x). Qed.

Lemma first_such_None f l :
  first_such f l = None ↔ ∀ x, x ∈ l → f x = false.
Proof.
  induction l as [|x l IH]; simpl.
  - split; [|done]. intros _ x Hx. by apply elem_of_nil in Hx.
  - destruct (f x) eqn:E.
    + split; [done|]. intros H. specialize (H x (list_elem_of_here _ _)). congruence.
    + rewrite IH. split.
      * intros H y [->|Hy]%elem_of_cons; auto.
      * intros H y Hy. apply H. by right.
Qed.

Lemma first_such_Some f l x :
  first_such f l = Some x →
  ∃ l1 l2, l = l1 ++ x :: l2 ∧ f x = true ∧ ∀ y, y ∈ l1 → f y = false.
Proof.
  induction l as [|y l IH]; simpl; [done|]. destruct (f y) eqn:E.
  - intros [= ->]. exists [], l. split_and!; [done|done|].
    intros z Hz. by apply elem_of_nil in Hz.
  - intros (l1 & l2 & -> & Hx & Hl1)%IH. exists (y :: l1), l2.
    split_and!; [done|done|]. intros z [->|Hz]%elem_of_cons; auto.
Qed.

Lemma first_such_elem f l x : first_such f l = Some x → x ∈ l ∧ f x = true.
Proof.
  intros (l1 & l2 & -> & Hx & _)%first_such_Some. split; [|done].
  apply elem_of_app. right. left.
Qed.

Lemma first_such_middle f l1 x l2 :
  (∀ y, y ∈ l1 → f y = false) → f x = true →
  first_such f (l1 ++ x :: l2) = Some x.
Proof.
  intros H1 Hx. rewrite first_such_app.
  apply first_such_None in H1. rewrite H1. simpl. by rewrite Hx.
Qed.

Lemma first_such_ext f g l :
  (∀ x, x ∈ l → f x = g x) → first_such f l = first_such g l.
Proof.
  induction l as [|x l IH]; intros H; simpl; [done|].
  rewrite <- (H x) by left. rewrite IH; [done|]. intros y Hy. apply H. by right.
Qed.

Lemma remove_first_middle f l1 x l2 :
  (∀ y, y ∈ l1 → f y = false) → f x = true →
  remove_first f (l1 ++ x :: l2) = l1 ++ l2.
Proof.
  intros H1 Hx. induction l1 as [|y l1 IH]; simpl.
  - by rewrite Hx.
  - rewrite (H1 y) by left. rewrite IH; [done|]. intros z Hz. apply H1. by right.
Qed.

Lemma remove_first_None f l : first_such f l = None → remove_first f l = l.
Proof.
  induction l as [|x l IH]; simpl; [done|]. destruct (f x); [done|].
  intros H. by rewrite IH.
Qed.

Lemma remove_first_ext f g l :
  (∀ x, x ∈ l → f x = g x) → remove_first f l = remove_first g l.
Proof.
  induction l as [|x l IH]; intros H; simpl; [done|].
  rewrite <- (H x) by left. rewrite IH; [done|]. intros y Hy. apply H. by right.
Qed.

Lemma length_remove_first f l x :
  first_such f l = Some x → S (length (remove_first f l)) = length l.
Proof.
  intros (l1 & l2 & -> & Hx & Hl1)%first_such_Some.
  rewrite remove_first_middle by done. rewrite !length_app. simpl. lia.
Qed.

Lemma remove_first_subseteq f l : remove_first f l ⊆ l.
Proof.
  induction l as [|x l IH]; simpl; [done|]. destruct (f x).
  - intros y Hy. by right.
  - intros y [->|Hy]%elem_of_cons; [left|right; by apply IH].
Qed.
End list_facts.

(** ** The domain-qualified lookup as a list search *)

Lemma GetModule2_loop_spec m d s : ∀ r fuel pDME hf pre,
  indexed (dmt s) = pre ++ r →
  at_cursor (dmt s) pDME hf r →
  placed s →
  (length r < fuel)%nat →
  GetModule2_loop fuel m d pDME hf s
    = Done (first_such (is_for (mem s) m d) (CHashTable.module <$> r.*2)) s.
Proof.
  induction r as [|[p e] r IH]; intros fuel pDME hf pre Hix Hat Hp Hf;
    destruct fuel as [|fuel]; try (simpl in Hf; lia); simpl in Hat.
  - by subst pDME.
  - destruct Hat as [-> Hrest]. simpl.
    destruct (placed_indexed _ _ _ _ _ Hp Hix) as (dm & Hdm & _).
    rewrite (bind_Done _ _ _ _ _ (entry_module_Done _ _ _ (indexed_EntryPtr _ _ _ _ _ Hix))).
    rewrite (bind_Done _ _ _ _ _ (GetRuntimeModule_Done _ _ _ Hdm)).
    rewrite (bind_Done _ _ _ _ _ (GetAppDomain_Done _ _ _ Hdm)).
    unfold is_for at 1. rewrite Hdm.
    destruct ((m_pRuntimeModule dm =? m) && (m_pAppDomain dm =? d)); [done|].
    unfold mbind, M_bind, FindNextEntry_.
    pose proof (FindNextEntry_at (dmt s) hf) as Hnext. rewrite Hrest in Hnext.
    destruct (FindNextEntry (dmt s) hf) as [e' hf'].
    apply (IH fuel e' hf' (pre ++ [(p, e)])); [by rewrite <- app_assoc|done|done|].
    simpl in Hf. lia.
Qed.

Lemma GetModule2_spec fuel m d s :
  placed s → (length (modules s) < fuel)%nat →
  GetModule2 fuel m d s = Done (first_such (is_for (mem s) m d) (modules s)) s.
Proof.
  intros Hp Hf. unfold GetModule2, mbind, M_bind, FindFirstEntry_.
  pose proof (FindFirstEntry_at (dmt s)) as Hat.
  destruct (FindFirstEntry (dmt s)) as [e hf].
  unfold modules. rewrite <- indexed_snd.
  apply (GetModule2_loop_spec m d s _ fuel e hf []); [done|done|done|].
  unfold modules in Hf. by rewrite length_fmap, <- length_indexed in Hf.
Qed.

(** ** Single-entry removal as a list operation *)

(** The store after the first record that satisfies [f] is destroyed. *)
Definition free_first (f : PTR_DebuggerModule → bool)
    (ps : list PTR_DebuggerModule) (h : gmap TADDR DebuggerModule)
  : gmap TADDR DebuggerModule :=
  match first_such f ps with
  | Some p => delete p h
  | None => h
  end.

Lemma RemoveModule_loop_spec m d s :
  consistent s → ∀ r pDME hf pre,
  indexed (dmt s) = pre ++ r →
  at_cursor (dmt s) pDME hf r →
  ∃ s', (∀ fuel, (length r < fuel)%nat →
           RemoveModule_loop fuel m d pDME hf s = Done () s') ∧
        modules s' = (CHashTable.module <$> pre.*2)
                       ++ remove_first (is_for (mem s) m d) (CHashTable.module <$> r.*2) ∧
        mem s' = free_first (is_for (mem s) m d) (CHashTable.module <$> r.*2) (mem s) ∧
        consistent s' ∧
        (first_such (is_for (mem s) m d) (CHashTable.module <$> r.*2) = None → s' = s).
Proof.
  intros Hc. induction r as [|[p e] r IH]; intros pDME hf pre Hix Hat; simpl in Hat.
  - subst pDME. exists s. split_and!; try done.
    + intros [|fuel] Hf; [simpl in Hf; lia|done].
    + unfold modules. simpl. by rewrite <- indexed_snd, Hix, !app_nil_r.
  - destruct Hat as [-> Hrest].
    destruct (placed_indexed _ _ _ _ _ (cons_placed _ Hc) Hix) as (dm & Hdm & _).
    assert (Hfor : is_for (mem s) m d (CHashTable.module e)
                   = (m_pRuntimeModule dm =? m) && (m_pAppDomain dm =? d)).
    { unfold is_for. by rewrite Hdm. }
    remember (is_for (mem s) m d) as f eqn:Ef.
    unfold free_first. cbn [fmap list_fmap snd first_such remove_first].
    rewrite Hfor.
    destruct ((m_pRuntimeModule dm =? m) && (m_pAppDomain dm =? d)) eqn:E.
    + destruct (delete_entry_consistent _ _ _ _ _ _ Hc Hix Hdm)
        as (t' & Hdel & Hent & Hlen & Hc').
      exists (mkState (delete (CHashTable.module e) (mem s)) t').
      split_and!; try done.
      * intros [|fuel] Hf; [simpl in Hf; lia|]. simpl.
        rewrite (bind_Done _ _ _ _ _ (entry_module_Done _ _ _ (indexed_EntryPtr _ _ _ _ _ Hix))).
        rewrite (bind_Done _ _ _ _ _ (GetRuntimeModule_Done _ _ _ Hdm)).
        rewrite (bind_Done _ _ _ _ _ (GetAppDomain_Done _ _ _ Hdm)).
        rewrite E.
        unfold mbind, M_bind, DeleteInteropSafe, upd_table. rewrite Hdm. simpl.
        by rewrite Hdel.
      * unfold modules. simpl. by rewrite Hent, fmap_app.
    + pose proof (FindNextEntry_at (dmt s) hf) as Hnext. rewrite Hrest in Hnext.
      destruct (FindNextEntry (dmt s) hf) as [e' hf'] eqn:Hnx.
      destruct (IH e' hf' (pre ++ [(p, e)])) as (s' & Hrun & Hm & Hh & Hc' & Hno);
        [by rewrite <- app_assoc|done|].
      exists s'. split_and!; try done.
      * intros [|fuel] Hf; [simpl in Hf; lia|]. simpl.
        rewrite (bind_Done _ _ _ _ _ (entry_module_Done _ _ _ (indexed_EntryPtr _ _ _ _ _ Hix))).
        rewrite (bind_Done _ _ _ _ _ (GetRuntimeModule_Done _ _ _ Hdm)).
        rewrite (bind_Done _ _ _ _ _ (GetAppDomain_Done _ _ _ Hdm)).
        rewrite E. unfold mbind, M_bind, FindNextEntry_. rewrite Hnx.
        apply Hrun. simpl in Hf. lia.
      * rewrite Hm, !fmap_app. simpl. by rewrite <- app_assoc.
Qed.

Lemma RemoveModule_spec m d s :
  consistent s →
  ∃ s', (∀ fuel, (length (modules s) < fuel)%nat →
           RemoveModule fuel m d s = Done () s') ∧
        modules s' = remove_first (is_for (mem s) m d) (modules s) ∧
        mem s' = free_first (is_for (mem s) m d) (modules s) (mem s) ∧
        consistent s' ∧
        (first_such (is_for (mem s) m d) (modules s) = None → s' = s).
Proof.
  intros Hc.
  pose proof (FindFirstEntry_at (dmt s)) as Hat.
  destruct (FindFirstEntry (dmt s)) as [e hf] eqn:Hfst.
  destruct (RemoveModule_loop_spec m d s Hc (indexed (dmt s)) e hf [])
    as (s' & Hrun & Hm & Hh & Hc' & Hno); [done|done|].
  rewrite indexed_snd in Hm, Hh, Hno.
  exists s'. split_and!; try done.
  intros fuel Hf. unfold RemoveModule, mbind, M_bind, FindFirstEntry_. rewrite Hfst.
  apply Hrun. unfold modules in Hf. by rewrite length_indexed, <- (length_fmap CHashTable.module).
Qed.

(** ** Bulk removal *)

(** The elements that satisfy [f], in order. *)
Fixpoint keep {A} (f : A → bool) (l : list A) : list A :=
  match l with
  | [] => []
  | x :: l' => if f x then x :: keep f l' else keep f l'
  end.

Section keep_facts.
Context {A : Type}.
Implicit Types (f g : A → bool) (l : list A).

Lemma keep_app f l1 l2 : keep f (l1 ++ l2) = keep f l1 ++ keep f l2.
Proof. induction l1 as [|x l1 IH]; simpl; [done|]. destruct (f x); simpl; by rewrite IH. Qed.

Lemma keep_ext f g l : (∀ x, x ∈ l → f x = g x) → keep f l = keep g l.
Proof.
  induction l as [|x l IH]; intros H; simpl; [done|].
  rewrite <- (H x) by left. rewrite IH; [done|]. intros y Hy. apply H. by right.
Qed.

Lemma keep_none f l : (∀ x, x ∈ l → f x = false) → keep f l = [].
Proof.
  induction l as [|x l IH]; intros H; simpl; [done|].
  rewrite (H x) by left. apply IH. intros y Hy. apply H. by right.
Qed.

Lemma keep_all f l : (∀ x, x ∈ l → f x = true) → keep f l = l.
Proof.
  induction l as [|x l IH]; intros H; simpl; [done|].
  rewrite (H x) by left. rewrite IH; [done|]. intros y Hy. apply H. by right.
Qed.

Lemma elem_of_keep f l x : x ∈ keep f l ↔ x ∈ l ∧ f x = true.
Proof.
  induction l as [|y l IH]; simpl.
  - split; [intros H; by apply elem_of_nil in H|intros [H _]; by apply elem_of_nil in H].
  - destruct (f y) eqn:E; rewrite ?elem_of_cons, IH; rewrite ?elem_of_cons;
      naive_solver congruence.
Qed.

Lemma length_keep_negb f l :
  (length (keep f l) + length (keep (λ x, negb (f x)) l))%nat = length l.
Proof. induction l as [|x l IH]; simpl; [done|]. destruct (f x); simpl; lia. Qed.

Lemma keep_keep_negb f l : keep f (keep (λ x, negb (f x)) l) = [].
Proof.
  apply keep_none. intros x [_ H]%elem_of_keep. by destruct (f x).
Qed.
End keep_facts.

Lemma free_all_delete ps p h :
  free_all ps (delete p h) = delete p (free_all ps h).
Proof.
  induction ps as [|q ps IH]; simpl; [done|].
  rewrite IH. apply delete_delete.
Qed.

Lemma in_domain_true h d p :
  in_domain h d p = true ↔ ∃ dm, h !! p = Some dm ∧ m_pAppDomain dm = d.
Proof.
  unfold in_domain. destruct (h !! p) as [dm|].
  - rewrite N.eqb_eq. naive_solver.
  - naive_solver.
Qed.

Lemma is_for_true h m d p :
  is_for h m d p = true ↔
  ∃ dm, h !! p = Some dm ∧ m_pRuntimeModule dm = m ∧ m_pAppDomain dm = d.
Proof.
  unfold is_for. destruct (h !! p) as [dm|].
  - rewrite andb_true_iff, !N.eqb_eq. naive_solver.
  - naive_solver.
Qed.

Lemma is_for_in_domain h m d p : is_for h m d p = true → in_domain h d p = true.
Proof. rewrite is_for_true, in_domain_true. naive_solver. Qed.

(** A scan that meets no record of the domain ends and changes nothing. *)
Lemma RemoveModules_loop_none D s fuel :
  placed s → ∀ r n pDME hf pre,
  indexed (dmt s) = pre ++ r →
  at_cursor (dmt s) pDME hf r →
  (∀ p, p ∈ CHashTable.module <$> r.*2 → in_domain (mem s) D p = false) →
  (length r < n)%nat →
  RemoveModules_loop n fuel D pDME hf s = Done () s.
Proof.
  intros Hp. induction r as [|[p e] r IH]; intros n pDME hf pre Hix Hat Hno Hn;
    destruct n as [|n]; try (simpl in Hn; lia); simpl in Hat.
  - by subst pDME.
  - destruct Hat as [-> Hrest]. simpl.
    destruct (placed_indexed _ _ _ _ _ Hp Hix) as (dm & Hdm & _).
    rewrite (bind_Done _ _ _ _ _ (entry_module_Done _ _ _ (indexed_EntryPtr _ _ _ _ _ Hix))).
    rewrite (bind_Done _ _ _ _ _ (GetAppDomain_Done _ _ _ Hdm)).
    assert (Hd : (m_pAppDomain dm =? D) = false).
    { specialize (Hno (CHashTable.module e)). unfold in_domain in Hno.
      rewrite Hdm in Hno. apply Hno. simpl. left. }
    rewrite Hd. unfold mbind, M_bind, FindNextEntry_.
    pose proof (FindNextEntry_at (dmt s) hf) as Hnext. rewrite Hrest in Hnext.
    destruct (FindNextEntry (dmt s) hf) as [e' hf'].
    apply (IH n e' hf' (pre ++ [(p, e)])); [by rewrite <- app_assoc|done| |simpl in Hn; lia].
    intros q Hq. apply Hno. simpl. by right.
Qed.

(** A scan that meets a record of the domain hands it to [RemoveModule] and
    starts again from the first entry. *)
Lemma RemoveModules_loop_hit D s fuel p e dm r2 :
  placed s → ∀ r1 n pDME hf pre,
  indexed (dmt s) = pre ++ r1 ++ (p, e) :: r2 →
  at_cursor (dmt s) pDME hf (r1 ++ (p, e) :: r2) →
  (∀ q, q ∈ CHashTable.module <$> r1.*2 → in_domain (mem s) D q = false) →
  mem s !! CHashTable.module e = Some dm →
  m_pAppDomain dm = D →
  (length r1 < n)%nat →
  RemoveModules_loop n fuel D pDME hf s
    = (RemoveModule fuel (m_pRuntimeModule dm) D ≫= λ _,
       FindFirstEntry_ ≫= λ '(e', hf'),
       RemoveModules_loop (n - S (length r1)) fuel D e' hf') s.
Proof.
  intros Hp. induction r1 as [|[p1 e1] r1 IH]; intros n pDME hf pre Hix Hat Hno Hdm HD Hn;
    destruct n as [|n]; try (simpl in Hn; lia); simpl in Hat;
    destruct Hat as [-> Hrest].
  - simpl. rewrite app_nil_l in Hix.
    rewrite (bind_Done _ _ _ _ _ (entry_module_Done _ _ _ (indexed_EntryPtr _ _ _ _ _ Hix))).
    rewrite (bind_Done _ _ _ _ _ (GetAppDomain_Done _ _ _ Hdm)).
    rewrite HD, N.eqb_refl.
    rewrite (bind_Done _ _ _ _ _ (GetRuntimeModule_Done _ _ _ Hdm)).
    by rewrite Nat.sub_0_r.
  - simpl. rewrite <- app_comm_cons in Hix.
    destruct (placed_indexed _ _ _ _ _ Hp Hix) as (dm1 & Hdm1 & _).
    rewrite (bind_Done _ _ _ _ _ (entry_module_Done _ _ _ (indexed_EntryPtr _ _ _ _ _ Hix))).
    rewrite (bind_Done _ _ _ _ _ (GetAppDomain_Done _ _ _ Hdm1)).
    assert (Hd : (m_pAppDomain dm1 =? D) = false).
    { specialize (Hno (CHashTable.module e1)). unfold in_domain in Hno.
      rewrite Hdm1 in Hno. apply Hno. simpl. left. }
    rewrite Hd. unfold mbind at 1, M_bind at 1, FindNextEntry_.
    pose proof (FindNextEntry_at (dmt s) hf) as Hnext. rewrite Hrest in Hnext.
    destruct (FindNextEntry (dmt s) hf) as [e' hf'].
    apply (IH n e' hf' (pre ++ [(p1, e1)])); [by rewrite <- app_assoc|done| |done|done|simpl in Hn; lia].
    intros q Hq. apply Hno. simpl. by right.
Qed.

Lemma modules_split s l1 p l2 :
  modules s = l1 ++ p :: l2 →
  ∃ r1 pe r2, indexed (dmt s) = r1 ++ pe :: r2 ∧
              l1 = CHashTable.module <$> r1.*2 ∧
              p = CHashTable.module pe.2 ∧
              l2 = CHashTable.module <$> r2.*2.
Proof.
  unfold modules. rewrite <- indexed_snd. intros H.
  apply fmap_app_inv in H as (k1 & k2 & -> & H2 & H).
  symmetry in H2. apply fmap_cons_inv in H2 as (e & k2' & -> & -> & ->).
  apply fmap_app_inv in H as (r1 & r2 & -> & H2 & ->).
  symmetry in H2. apply fmap_cons_inv in H2 as (pe & r2' & -> & -> & ->).
  by exists r1, pe, r2'.
Qed.

(** What [RemoveModules] makes of a state: the records of the domain are
    destroyed and unlinked, the others stay in place. *)
Definition RemoveModules_result (D : PTR_AppDomain) (s s' : State) : Prop :=
  (∀ n fuel, (length (modules s) < fuel)%nat →
             ((length (modules s) + 1) * (length (modules s) + 1) ≤ n)%nat →
     (FindFirstEntry_ ≫= λ '(e, hf), RemoveModules_loop n fuel D e hf) s = Done () s') ∧
  modules s' = keep (λ p, negb (in_domain (mem s) D p)) (modules s) ∧
  mem s' = free_all (keep (in_domain (mem s) D) (modules s)) (mem s) ∧
  consistent s'.

(** The first record of the domain that a scan from the first entry meets is
    the one [RemoveModule] takes out; the run then goes on as a run from the
    start on the smaller table. *)
Definition RemoveModules_step (D : PTR_AppDomain) (s s' : State) : Prop :=
  match first_such (in_domain (mem s) D) (modules s) with
  | None => s' = s
  | Some p =>
      ∃ dm s1,
        mem s !! p = Some dm ∧
        (∀ fuel, (length (modules s) < fuel)%nat →
           RemoveModule fuel (m_pRuntimeModule dm) D s = Done () s1) ∧
        mem s1 = delete p (mem s) ∧
        modules s1 = remove_first (in_domain (mem s) D) (modules s) ∧
        S (length (modules s1)) = length (modules s) ∧
        RemoveModules_result D s1 s'
  end.

Lemma RemoveModules_restart D : ∀ k s,
  length (modules s) = k →
  consistent s →
  ∃ s', RemoveModules_result D s s' ∧ RemoveModules_step D s s'.
Proof.
  unfold RemoveModules_result, RemoveModules_step.
  induction k as [|k IH]; intros s Hk Hc;
    (destruct (first_such (in_domain (mem s) D) (modules s)) as [p|] eqn:Hfirst;
     [apply first_such_Some in Hfirst as (l1 & l2 & Hl & Hpd & Hl1)
     |pose proof (proj1 (first_such_None _ _) Hfirst) as Hall]).
  1: { rewrite Hl, length_app in Hk. simpl in Hk. lia. }
  1,3: exists s; split_and!; try done;
    [ intros n fuel Hfuel Hn; unfold mbind, M_bind, FindFirstEntry_;
      pose proof (FindFirstEntry_at (dmt s)) as Hat;
      destruct (FindFirstEntry (dmt s)) as [e hf];
      apply (RemoveModules_loop_none D s fuel (cons_placed _ Hc)
               (indexed (dmt s)) n e hf []); try done;
      [ unfold modules in Hall; by rewrite <- indexed_snd in Hall
      | rewrite length_indexed; unfold modules in Hk, Hn;
        rewrite length_fmap in Hk, Hn; nia ]
    | symmetry; apply keep_all; intros x Hx; by rewrite (Hall x Hx)
    | by rewrite (keep_none _ _ Hall) ].
  (* the first record of the domain is removed, then the scan restarts *)
  destruct (modules_split _ _ _ _ Hl) as (r1 & [pp e] & r2 & Hix & -> & -> & ->).
  simpl in *.
  pose proof Hpd as Hpin.
  apply in_domain_true in Hpd as (dm & Hdm & HD).
  destruct (RemoveModule_spec (m_pRuntimeModule dm) D s Hc)
    as (s1 & Hrun & Hm1 & Hh1 & Hc1 & _).
  assert (Hfor : is_for (mem s) (m_pRuntimeModule dm) D (CHashTable.module e) = true).
  { apply is_for_true. eauto. }
  assert (Hnot : ∀ y, y ∈ CHashTable.module <$> r1.*2 →
                      is_for (mem s) (m_pRuntimeModule dm) D y = false).
  { intros y Hy. destruct (is_for _ _ _ y) eqn:E; [|done].
    apply is_for_in_domain in E. rewrite (Hl1 y Hy) in E. done. }
  rewrite Hl, remove_first_middle in Hm1 by done.
  unfold free_first in Hh1. rewrite Hl, first_such_middle in Hh1 by done.
  assert (Hlen1 : length (modules s1) = k).
  { rewrite Hm1. rewrite Hl in Hk. rewrite !length_app in *. simpl in Hk. lia. }
  assert (Hr1 : (length r1 ≤ k)%nat).
  { rewrite Hl in Hk. rewrite length_app, !length_fmap in Hk. simpl in Hk. lia. }
  destruct (IH s1 Hlen1 Hc1) as (s' & Hres & _).
  pose proof Hres as (Hrun' & Hm' & Hh' & Hc').
  exists s'.
  assert (Hnd : NoDup (modules s)) by apply Hc.
  rewrite Hl in Hnd. apply NoDup_app in Hnd as (Hn1 & Hn12 & Hn2).
  apply NoDup_cons in Hn2 as [Hn2 Hn3].
  assert (Hsame : ∀ q, q ∈ (CHashTable.module <$> r1.*2) ++ (CHashTable.module <$> r2.*2) →
            in_domain (delete (CHashTable.module e) (mem s)) D q = in_domain (mem s) D q).
  { intros q Hq. unfold in_domain. rewrite lookup_delete_ne; [done|].
    intros <-. apply elem_of_app in Hq as [Hq|Hq]; [|done].
    apply (Hn12 _ Hq). left. }
  rewrite Hh1, Hm1 in Hm', Hh'.
  split_and!.
  - intros n fuel Hfuel Hn. rewrite Hk in Hfuel, Hn.
    unfold mbind at 1, M_bind at 1, FindFirstEntry_.
    pose proof (FindFirstEntry_at (dmt s)) as Hat.
    destruct (FindFirstEntry (dmt s)) as [e0 hf0]. rewrite Hix in Hat.
    rewrite (RemoveModules_loop_hit D s fuel pp e dm r2 (cons_placed _ Hc)
               r1 n e0 hf0 []); try done; [|nia].
    rewrite (bind_Done _ _ _ _ _ (Hrun fuel ltac:(lia))).
    apply Hrun'; rewrite Hlen1; [lia|nia].
  - rewrite Hm', Hl, (keep_app _ _ (_ :: _)). cbn [keep].
    rewrite Hpin. cbn [negb]. rewrite <- keep_app.
    apply keep_ext. intros q Hq. by rewrite Hsame.
  - rewrite Hh', Hl, free_all_delete, (keep_app _ _ (_ :: _)). cbn [keep].
    rewrite Hpin.
    rewrite (keep_none (in_domain (mem s) D) (CHashTable.module <$> r1.*2)) by done.
    cbn [app free_all foldr]. f_equal. f_equal.
    rewrite (keep_ext _ (in_domain (mem s) D) (_ ++ _)) by done.
    rewrite keep_app.
    by rewrite (keep_none (in_domain (mem s) D) (CHashTable.module <$> r1.*2)).
  - done.
  - exists dm, s1. split_and!; try done.
    + rewrite Hm1, Hl. by rewrite remove_first_middle.
    + by rewrite Hlen1.
Qed.

Lemma RemoveModules_spec D s :
  consistent s →
  ∃ s', (∀ fuel, ((length (modules s) + 1) * (length (modules s) + 1) ≤ fuel)%nat →
           RemoveModules fuel D s = Done () s') ∧
        modules s' = keep (λ p, negb (in_domain (mem s) D p)) (modules s) ∧
        mem s' = free_all (keep (in_domain (mem s) D) (modules s)) (mem s) ∧
        consistent s' ∧
        RemoveModules_step D s s'.
Proof.
  intros Hc.
  destruct (RemoveModules_restart D _ s eq_refl Hc) as (s' & (Hrun & Hm & Hh & Hc') & Hstep).
  exists s'. split_and!; try done.
  intros fuel Hf. apply Hrun; [nia|done].
Qed.

(** ** Insertion *)

Lemma bucket_of_lt t iHash : (0 < m_iBuckets t)%nat → (bucket_of t iHash < m_iBuckets t)%nat.
Proof.
  intros H. unfold bucket_of.
  assert (iHash mod N.of_nat (m_iBuckets t) < N.of_nat (m_iBuckets t)) by (apply N.mod_lt; lia).
  lia.
Qed.

Lemma join_insert_chain {A} (ls : list (list A)) b c c' :
  ls !! b = Some c →
  mjoin ls = mjoin (take b ls) ++ c ++ mjoin (drop (S b) ls) ∧
  mjoin (<[b := c']> ls) = mjoin (take b ls) ++ c' ++ mjoin (drop (S b) ls).
Proof.
  intros H. split.
  - rewrite <- (take_drop_middle ls b c H) at 1. by rewrite join_app.
  - rewrite insert_take_drop by (by eapply lookup_lt_Some). by rewrite join_app.
Qed.

Lemma AddModule_fail s pModule dm :
  mem s !! pModule = Some dm → AddModule false pModule s = Throw_OutOfMemory s.
Proof.
  intros Hdm. unfold AddModule.
  by rewrite (bind_Done _ _ _ _ _ (GetRuntimeModule_Done _ _ _ Hdm)).
Qed.

Lemma AddModule_spec s pModule dm :
  (0 < m_iBuckets (dmt s))%nat →
  mem s !! pModule = Some dm →
  ∃ s' l1 l2,
    AddModule true pModule s = Done () s' ∧
    mem s' = mem s ∧
    m_iBuckets (dmt s') = m_iBuckets (dmt s) ∧
    modules s = l1 ++ l2 ∧
    modules s' = l1 ++ pModule :: l2 ∧
    (placed s → placed s') ∧
    (placed s → ∀ q, q ∈ l1 → of_module (mem s) (m_pRuntimeModule dm) q = false).
Proof.
  intros Hb Hdm.
  pose proof (bucket_of_lt (dmt s) (HASH (m_pRuntimeModule dm)) Hb) as Hlt.
  set (b := bucket_of (dmt s) (HASH (m_pRuntimeModule dm))) in *.
  destruct (lookup_lt_is_Some_2 (m_piBuckets (dmt s)) b Hlt) as [c Hc].
  set (t' := mkTable (<[b := mkEntry pModule :: c]> (m_piBuckets (dmt s)))).
  assert (Hrun : AddModule true pModule s = Done () (mkState (mem s) t')).
  { unfold AddModule.
    rewrite (bind_Done _ _ _ _ _ (GetRuntimeModule_Done _ _ _ Hdm)).
    unfold mbind, M_bind, Add_, Add, upd_table, set_module. simpl. fold b.
    rewrite list_lookup_alter_eq, Hc. simpl. do 2 f_equal. unfold t'. f_equal.
    apply list_eq. intros j. destruct (decide (j = b)) as [->|Hne].
    - rewrite !list_lookup_insert_eq; [done|done|]. by rewrite length_alter.
    - by rewrite !list_lookup_insert_ne, list_lookup_alter_ne. }
  destruct (join_insert_chain (m_piBuckets (dmt s)) b c (mkEntry pModule :: c) Hc)
    as [H1 H2].
  exists (mkState (mem s) t'),
    (CHashTable.module <$> mjoin (take b (m_piBuckets (dmt s)))),
    (CHashTable.module <$> (c ++ mjoin (drop (S b) (m_piBuckets (dmt s))))).
  assert (Hlen : m_iBuckets t' = m_iBuckets (dmt s)).
  { unfold m_iBuckets, t'. simpl. by rewrite length_insert. }
  split_and!; try done.
  - unfold modules, entries. by rewrite H1, fmap_app.
  - unfold modules, entries. simpl. by rewrite H2, fmap_app.
  - intros Hp b' c' e Hc' He. simpl in *.
    unfold bucket_of. rewrite Hlen. fold (bucket_of (dmt s)).
    destruct (decide (b' = b)) as [->|Hne].
    + rewrite list_lookup_insert_eq in Hc' by done. injection Hc' as <-.
      apply elem_of_cons in He as [->|He]; [by exists dm|]. by apply (Hp b c).
    + rewrite list_lookup_insert_ne in Hc' by done. by apply (Hp b' c').
  - intros Hp q (e & -> & He)%list_elem_of_fmap.
    apply list_elem_of_join in He as (cj & He & Hcj).
    apply list_elem_of_lookup in Hcj as [j Hj].
    apply lookup_take_Some in Hj as [Hj Hjb].
    destruct (Hp j cj e Hj He) as (dm' & Hdm' & Hbk).
    unfold of_module. rewrite Hdm'. apply N.eqb_neq. intros Heq.
    rewrite Heq in Hbk. fold b in Hbk. lia.
Qed.

Lemma AddModule_consistent s pModule dm s' :
  consistent s → mem s !! pModule = Some dm → pModule ∉ modules s →
  AddModule true pModule s = Done () s' → consistent s'.
Proof.
  intros [Hb Hp Hn] Hdm Hnotin Hrun.
  destruct (AddModule_spec s pModule dm ltac:(rewrite Hb; lia) Hdm)
    as (s2 & l1 & l2 & Hrun2 & Hh & Hlen & Hl & Hl' & Hp' & _).
  rewrite Hrun in Hrun2. injection Hrun2 as <-.
  constructor; [by rewrite Hlen|auto|].
  rewrite Hl'. rewrite Hl in Hn, Hnotin.
  apply NoDup_app in Hn as (Hn1 & Hn12 & Hn2).
  apply NoDup_app. split_and!; [done| |].
  - intros x Hx [->|Hx2]%elem_of_cons.
    + apply Hnotin. apply elem_of_app. by left.
    + by apply (Hn12 x).
  - apply NoDup_cons. split; [|done]. intros Hx. apply Hnotin. apply elem_of_app. by right.
Qed.

(** ** Teardown *)

Lemma entries_nil_replicate t :
  entries t = [] → m_piBuckets t = replicate (m_iBuckets t) [].
Proof.
  unfold entries, m_iBuckets. intros H. apply join_nil_1 in H.
  induction H as [|c cs -> _ IH]; simpl; [done|]. by rewrite <- IH.
Qed.

Lemma Clear_loop_spec : ∀ k s fuel pDME hf,
  length (modules s) = k →
  consistent s →
  at_cursor (dmt s) pDME hf (indexed (dmt s)) →
  (k < fuel)%nat →
  ∃ t', Clear_loop fuel pDME s = Done () (mkState (free_all (modules s) (mem s)) t') ∧
        entries t' = [] ∧
        m_iBuckets t' = m_iBuckets (dmt s).
Proof.
  induction k as [|k IH]; intros s fuel pDME hf Hk Hc Hat Hf;
    destruct fuel as [|fuel]; try lia;
    pose proof Hk as Hk'; unfold modules in Hk';
    rewrite length_fmap, <- length_indexed in Hk';
    destruct (indexed (dmt s)) as [|[p e] r] eqn:Hix; try discriminate; simpl in Hat.
  - subst pDME. simpl. exists (dmt s). split_and!; try done.
    + apply nil_length_inv in Hk. rewrite Hk. simpl. by destruct s.
    + unfold modules in Hk. rewrite length_fmap in Hk. by apply nil_length_inv.
  - destruct Hat as [-> _]. simpl.
    change ((p, e) :: r) with ([] ++ (p, e) :: r) in Hix.
    destruct (placed_indexed _ _ _ _ _ (cons_placed _ Hc) Hix) as (dm & Hdm & _).
    destruct (delete_entry_consistent _ _ _ _ _ _ Hc Hix Hdm)
      as (t1 & Hdel & Hent & Hlen & Hc1).
    rewrite (bind_Done _ _ _ _ _ (entry_module_Done _ _ _ (indexed_EntryPtr _ _ _ _ _ Hix))).
    rewrite (bind_Done _ _ _ _ _ (GetRuntimeModule_Done _ _ _ Hdm)).
    unfold mbind, M_bind, DeleteInteropSafe, upd_table, FindFirstEntry_.
    rewrite Hdm. simpl. rewrite Hdel. simpl.
    set (s1 := mkState (delete (CHashTable.module e) (mem s)) t1) in *.
    pose proof (FindFirstEntry_at t1) as Hat1.
    destruct (FindFirstEntry t1) as [e1 hf1].
    assert (Hm : modules s = CHashTable.module e :: modules s1).
    { unfold modules. simpl. rewrite Hent. rewrite <- indexed_snd, Hix. done. }
    destruct (IH s1 fuel e1 hf1) as (t' & Hrun & Hnil & Hlen'); try done.
    { rewrite Hm in Hk. simpl in Hk. lia. }
    { lia. }
    exists t'. split_and!; [|done|by rewrite Hlen', <- Hlen].
    rewrite Hrun. do 2 f_equal. rewrite Hm. simpl.
    by rewrite free_all_delete.
Qed.

Lemma Clear_spec fuel s :
  consistent s → (length (modules s) < fuel)%nat →
  Clear fuel s = Done () (mkState (free_all (modules s) (mem s))
                                  (CHashTableAndData_ctor (m_iBuckets (dmt s)))).
Proof.
  intros Hc Hf. unfold Clear, mbind, M_bind, FindFirstEntry_.
  pose proof (FindFirstEntry_at (dmt s)) as Hat.
  destruct (FindFirstEntry (dmt s)) as [e hf].
  destruct (Clear_loop_spec _ s fuel e hf eq_refl Hc Hat Hf) as (t' & -> & Hnil & Hlen).
  unfold upd_table, CHashTable.Clear, CHashTableAndData_ctor. simpl. by rewrite Hlen.
Qed.

(** ** The exact lookup as a list search *)

Lemma Find_chain_module key s b cs : ∀ c i c0,
  cs = c0 ++ c →
  m_piBuckets (dmt s) !! b = Some cs →
  i = length c0 →
  (∀ e, e ∈ c → is_Some (mem s !! CHashTable.module e)) →
  (Find_chain key b i c ≫= λ entry,
     match entry with
     | None => mret None
     | Some e => pDM ← entry_module e; mret (Some pDM)
     end) s
  = Done (first_such (of_module (mem s) key) (CHashTable.module <$> c)) s.
Proof.
  induction c as [|e c IH]; intros i c0 Hcs Hb Hi Hlive; simpl; [done|].
  destruct (Hlive e) as [dm Hdm]; [left|].
  unfold mbind at 1, M_bind at 1. unfold mbind at 1, M_bind at 1. unfold Cmp.
  rewrite (bind_Done _ _ _ _ _ (GetRuntimeModule_Done _ _ _ Hdm)).
  unfold mret at 1, M_ret at 1. unfold of_module at 1. rewrite Hdm, (N.eqb_sym key).
  destruct (m_pRuntimeModule dm =? key); simpl.
  - assert (He : EntryPtr (dmt s) (b, i) = Some e).
    { unfold EntryPtr. simpl. rewrite Hb. simpl. subst.
      rewrite lookup_app_r by lia. by rewrite Nat.sub_diag. }
    by rewrite (bind_Done _ _ _ _ _ (entry_module_Done _ _ _ He)).
  - apply (IH (S i) (c0 ++ [e])).
    + by rewrite <- app_assoc.
    + done.
    + rewrite length_app. simpl. lia.
    + intros e' He'. apply Hlive. by right.
Qed.

Lemma first_such_bucket s m :
  placed s → (0 < m_iBuckets (dmt s))%nat →
  ∃ c, m_piBuckets (dmt s) !! bucket_of (dmt s) (HASH m) = Some c ∧
       first_such (of_module (mem s) m) (modules s)
       = first_such (of_module (mem s) m) (CHashTable.module <$> c).
Proof.
  intros Hp Hb. set (b := bucket_of (dmt s) (HASH m)).
  destruct (lookup_lt_is_Some_2 (m_piBuckets (dmt s)) b (bucket_of_lt _ _ Hb)) as [c Hc].
  exists c. split; [done|].
  assert (Hother : ∀ j cj e, j ≠ b → m_piBuckets (dmt s) !! j = Some cj → e ∈ cj →
                    of_module (mem s) m (CHashTable.module e) = false).
  { intros j cj e Hj Hcj He. destruct (Hp j cj e Hcj He) as (dm & Hdm & Hbk).
    unfold of_module. rewrite Hdm. apply N.eqb_neq. intros Heq.
    apply Hj. rewrite <- Hbk, Heq. done. }
  unfold modules, entries.
  rewrite (proj1 (join_insert_chain _ b c c Hc)), !fmap_app, !first_such_app.
  assert (H1 : first_such (of_module (mem s) m)
                 (CHashTable.module <$> mjoin (take b (m_piBuckets (dmt s)))) = None).
  { apply first_such_None. intros x (e & -> & He)%list_elem_of_fmap.
    apply list_elem_of_join in He as (cj & He & Hcj).
    apply list_elem_of_lookup in Hcj as [j Hj].
    apply lookup_take_Some in Hj as [Hj Hlt].
    apply (Hother j cj e); [lia|done|done]. }
  assert (H2 : first_such (of_module (mem s) m)
                 (CHashTable.module <$> mjoin (drop (S b) (m_piBuckets (dmt s)))) = None).
  { apply first_such_None. intros x (e & -> & He)%list_elem_of_fmap.
    apply list_elem_of_join in He as (cj & He & Hcj).
    apply list_elem_of_lookup in Hcj as [j Hj].
    rewrite lookup_drop in Hj.
    apply (Hother (S b + j)%nat cj e); [lia|done|done]. }
  rewrite H1, H2. by destruct (first_such _ (CHashTable.module <$> c)).
Qed.

Lemma GetModule_spec m s :
  placed s → (0 < m_iBuckets (dmt s))%nat →
  GetModule m s = Done (first_such (of_module (mem s) m) (modules s)) s.
Proof.
  intros Hp Hb. destruct (first_such_bucket s m Hp Hb) as (c & Hc & ->).
  unfold GetModule, KEY.
  unfold mbind at 1, M_bind at 1, Find. rewrite Hc.
  apply (Find_chain_module m s _ c c 0%nat []); try done.
  intros e He. destruct (Hp _ c e Hc He) as (dm & Hdm & _). eauto.
Qed.

(** ** The mutator of the shadow record *)

Lemma SetCanChangeJitFlags_consistent this f s s' :
  consistent s → SetCanChangeJitFlags this f s = Done () s' → consistent s'.
Proof.
  intros [Hb Hp Hn]. unfold SetCanChangeJitFlags.
  destruct (mem s !! this) as [dm|] eqn:Hdm; [|done]. intros [= <-].
  constructor; simpl; [done| |done].
  intros b c e Hc He. destruct (Hp b c e Hc He) as (dm' & Hdm' & Hbk). simpl.
  destruct (decide (this = CHashTable.module e)) as [->|Hne].
  - rewrite lookup_insert_eq. eexists. split; [done|]. simpl.
    rewrite Hdm in Hdm'. by injection Hdm' as ->.
  - rewrite lookup_insert_ne by done. eauto.
Qed.

(** ** The fresh registry, and a decision procedure for consistency *)

(** A registry as its constructor leaves it, over a store [h] of records. *)
Definition fresh (h : gmap TADDR DebuggerModule) : State :=
  mkState h DebuggerModuleTable_ctor.

Lemma entries_ctor n : entries (CHashTableAndData_ctor n) = [].
Proof. unfold entries. simpl. induction n as [|n IH]; simpl; [done|]. by rewrite IH. Qed.

Lemma fresh_consistent h : consistent (fresh h).
Proof.
  constructor.
  - reflexivity.
  - intros b c e Hc He.
    unfold fresh, DebuggerModuleTable_ctor, CHashTableAndData_ctor in Hc.
    cbn [dmt m_piBuckets] in Hc.
    apply lookup_replicate in Hc as [-> _]. by apply elem_of_nil in He.
  - unfold modules, fresh, DebuggerModuleTable_ctor. cbn [dmt].
    rewrite entries_ctor. constructor.
Qed.

Definition placedb (s : State) : bool :=
  forallb (λ pe : PTR_HASHENTRY * DebuggerModuleEntry,
             match mem s !! CHashTable.module pe.2 with
             | Some dm =>
                 Nat.eqb (bucket_of (dmt s) (HASH (m_pRuntimeModule dm))) pe.1.1
             | None => false
             end)
          (indexed (dmt s)).

Definition consistentb (s : State) : bool :=
  Nat.eqb (m_iBuckets (dmt s)) 101 && placedb s && bool_decide (NoDup (modules s)).

Lemma elem_of_chain_from b i c j e :
  c !! j = Some e → ((b, (i + j)%nat), e) ∈ chain_from b i c.
Proof.
  revert i j. induction c as [|x c IH]; intros i j H; [done|].
  destruct j as [|j]; simpl in *.
  - injection H as ->. rewrite Nat.add_0_r. left.
  - right. replace (i + S j)%nat with (S i + j)%nat by lia. by apply IH.
Qed.

Lemma elem_of_indexed_from chains : ∀ b0 k c j e,
  chains !! k = Some c → c !! j = Some e →
  (((b0 + k)%nat, j), e) ∈ indexed_from b0 chains.
Proof.
  induction chains as [|c0 rest IH]; intros b0 k c j e Hk Hj; [done|].
  simpl. apply elem_of_app. destruct k as [|k]; simpl in Hk.
  - injection Hk as ->. left. rewrite Nat.add_0_r.
    by apply (elem_of_chain_from b0 0 c j e).
  - right. replace (b0 + S k)%nat with (S b0 + k)%nat by lia. by eapply IH.
Qed.

Lemma consistentb_sound s : consistentb s = true → consistent s.
Proof.
  unfold consistentb. rewrite !andb_true_iff, Nat.eqb_eq, bool_decide_eq_true.
  intros [[Hb Hp] Hn]. constructor; [done| |done].
  intros b c e Hc He. apply list_elem_of_lookup in He as [j Hj].
  pose proof (elem_of_indexed_from _ 0 b c j e Hc Hj) as Hin. simpl in Hin.
  unfold placedb in Hp. rewrite forallb_forall in Hp.
  apply list_elem_of_In in Hin. specialize (Hp _ Hin). simpl in Hp.
  destruct (mem s !! CHashTable.module e) as [dm|]; [|done].
  apply Nat.eqb_eq in Hp. eauto.
Qed.

Lemma lookup_free_all ps h q : q ∉ ps → free_all ps h !! q = h !! q.
Proof.
  induction ps as [|p ps IH]; intros Hq; simpl; [done|].
  apply not_elem_of_cons in Hq as [Hne Hq].
  rewrite lookup_delete_ne by done. by apply IH.
Qed.

Lemma lookup_free_all_elem ps h q : q ∈ ps → free_all ps h !! q = None.
Proof.
  induction ps as [|p ps IH]; intros Hq; simpl; [by apply elem_of_nil in Hq|].
  destruct (decide (p = q)) as [->|Hne]; [apply lookup_delete_eq|].
  rewrite lookup_delete_ne by done. apply IH.
  by apply elem_of_cons in Hq as [->|Hq].
Qed.

(** * The properties of the registry *)

(** ** Concrete states used to exercise the theorems *)

(** Three records: modules [1] and [102] fall in the same bucket of the
    101-bucket table; module [1] is loaded in domains [7] and [8]. *)
Definition three_records : gmap TADDR DebuggerModule :=
  <[10 := mkDebuggerModule 1 7 false]>
  (<[20 := mkDebuggerModule 102 7 false]>
  (<[30 := mkDebuggerModule 1 8 true]> ∅)).

(** The registry after the three records were added, in the order of their
    addresses. *)
Definition three_modules : State :=
  mkState three_records
    (mkTable (<[1%nat := [mkEntry 30; mkEntry 20; mkEntry 10]]> (replicate 101 []))).

Lemma three_modules_consistent : consistent three_modules.
Proof. apply consistentb_sound. vm_compute. reflexivity. Defined.

(** ** The mutator of the shadow record *)

(** C9. [SetCanChangeJitFlags(b)] on any live shadow record, for any [b] and
    whatever the flag was: the flag becomes [b], the module and the domain of
    the record stay, every other record stays, and the table is handed back
    as it was.  Nothing is asked of the table [t], which the function does not
    read. *)
Theorem SetCanChangeJitFlags_overwrites_flag
    (h : gmap TADDR DebuggerModule) (t : CHashTableAndData)
    (this : PTR_DebuggerModule) (dm : DebuggerModule) (b : bool) :
  h !! this = Some dm →
  ∃ s', SetCanChangeJitFlags this b (mkState h t) = Done () s' ∧
        mem s' !! this
          = Some (mkDebuggerModule (m_pRuntimeModule dm) (m_pAppDomain dm) b) ∧
        (∀ q, q ≠ this → mem s' !! q = h !! q) ∧
        dmt s' = t.
Proof.
  intros Hdm. unfold SetCanChangeJitFlags. simpl. rewrite Hdm.
  eexists. split; [done|]. simpl. split_and!; [|intros q Hq|done].
  - apply lookup_insert_eq.
  - by rewrite lookup_insert_ne.
Qed.

Lemma SetCanChangeJitFlags_overwrites_flag_witness :
  three_records !! 10 = Some (mkDebuggerModule 1 7 false) ∧
  ∃ s', SetCanChangeJitFlags 10 true (mkState three_records (dmt three_modules))
          = Done () s' ∧
        mem s' !! 10 = Some (mkDebuggerModule 1 7 true) ∧
        (∀ q, q ≠ 10 → mem s' !! q = three_records !! q) ∧
        dmt s' = dmt three_modules.
Proof.
  split; [reflexivity|].
  apply (SetCanChangeJitFlags_overwrites_flag three_records (dmt three_modules) 10
           (mkDebuggerModule 1 7 false) true).
  reflexivity.
Defined.

(** ** The exact lookup *)

Lemma Find_chain_sound key s b cs : ∀ c i c0 pe s',
  cs = c0 ++ c →
  m_piBuckets (dmt s) !! b = Some cs →
  i = length c0 →
  Find_chain key b i c s = Done (Some pe) s' →
  s' = s ∧ ∃ e dm, EntryPtr (dmt s) pe = Some e ∧
                   mem s !! CHashTable.module e = Some dm ∧
                   m_pRuntimeModule dm = key.
Proof.
  induction c as [|e c IH]; intros i c0 pe s' Hcs Hb Hi; simpl; [done|].
  unfold mbind at 1, M_bind at 1, Cmp, mbind at 1, M_bind at 1,
    GetRuntimeModule, get_opt.
  destruct (mem s !! CHashTable.module e) as [dm|] eqn:Hdm; [|done]. simpl.
  unfold mret at 1, M_ret at 1.
  destruct (key =? m_pRuntimeModule dm) eqn:E; simpl.
  - intros [= <- <-]. split; [done|]. exists e, dm. split_and!; [|done|].
    + unfold EntryPtr. simpl. rewrite Hb. simpl. subst.
      rewrite lookup_app_r by lia. by rewrite Nat.sub_diag.
    + symmetry. by apply N.eqb_eq.
  - apply (IH (S i) (c0 ++ [e])); [by rewrite <- app_assoc|done|].
    rewrite length_app. simpl. lia.
Qed.

(** C10. Whenever [GetModule(module)] returns a record, the record is for the
    module asked for; and in a consistent registry where no record is for that
    module the answer is not-found, whatever else is linked in the chain the
    module hashes to. *)
Theorem GetModule_answers_for_the_module (m : PTR_Module) (s : State) :
  (∀ p s', GetModule m s = Done (Some p) s' →
     ∃ dm, mem s !! p = Some dm ∧ m_pRuntimeModule dm = m) ∧
  (consistent s →
   (∀ p dm, p ∈ modules s → mem s !! p = Some dm → m_pRuntimeModule dm ≠ m) →
   GetModule m s = Done None s).
Proof.
  split.
  - intros p s'. unfold GetModule, KEY, mbind at 1, M_bind at 1, Find.
    destruct (m_piBuckets (dmt s) !! bucket_of (dmt s) (HASH m)) as [cs|] eqn:Hcs; [|done].
    destruct (Find_chain m (bucket_of (dmt s) (HASH m)) 0 cs s) as [[pe|] s1| | |] eqn:Hf;
      try done.
    apply (Find_chain_sound m s _ cs cs 0%nat []) in Hf as [-> (e & dm & He & Hdm & Hrt)];
      try done.
    rewrite (bind_Done _ _ _ _ _ (entry_module_Done _ _ _ He)).
    intros [= <- <-]. eauto.
  - intros Hc Hno. rewrite GetModule_spec; [|apply Hc|rewrite (cons_buckets _ Hc); lia].
    f_equal. apply first_such_None. intros p Hp.
    destruct (modules_live s p (cons_placed _ Hc) Hp) as [dm Hdm].
    unfold of_module. rewrite Hdm. apply N.eqb_neq. by apply (Hno p dm).
Qed.

(** Modules [1], [102] and [203] select the same chain of the 101-bucket
    table. *)
Example same_bucket :
  bucket_of DebuggerModuleTable_ctor (HASH 1) = 1%nat ∧
  bucket_of DebuggerModuleTable_ctor (HASH 102) = 1%nat ∧
  bucket_of DebuggerModuleTable_ctor (HASH 203) = 1%nat.
Proof. vm_compute. auto. Qed.

Lemma GetModule_answers_for_the_module_witness :
  (GetModule 102 three_modules = Done (Some 20) three_modules ∧
   ∃ dm, mem three_modules !! 20 = Some dm ∧ m_pRuntimeModule dm = 102) ∧
  (consistent three_modules ∧
   (∀ p dm, p ∈ modules three_modules → mem three_modules !! p = Some dm →
            m_pRuntimeModule dm ≠ 203) ∧
   GetModule 203 three_modules = Done None three_modules).
Proof.
  split.
  - split; [vm_compute; reflexivity|].
    apply (proj1 (GetModule_answers_for_the_module 102 three_modules) 20 three_modules).
    vm_compute. reflexivity.
  - assert (Hno : ∀ p dm, p ∈ modules three_modules →
                    mem three_modules !! p = Some dm → m_pRuntimeModule dm ≠ 203).
    { intros p dm Hp. vm_compute in Hp.
      apply elem_of_cons in Hp as [->|Hp]; [vm_compute; by intros [= <-]|].
      apply elem_of_cons in Hp as [->|Hp]; [vm_compute; by intros [= <-]|].
      apply elem_of_cons in Hp as [->|Hp]; [vm_compute; by intros [= <-]|].
      by apply elem_of_nil in Hp. }
    split; [exact three_modules_consistent|]. split; [exact Hno|].
    exact (proj2 (GetModule_answers_for_the_module 203 three_modules)
                 three_modules_consistent Hno).
Defined.

(** ** Insertion *)

(** C6. [AddModule] of a live record.  When the entry cannot be allocated it
    throws out-of-memory and the state is the one it started from, so the
    record is not entered.  When the entry is allocated the record is
    entered: the table points to the records it pointed to before, in the
    same order, and to [pModule] once more, so that the count grows by exactly
    one.  Nothing is asked about the records already in the table: a record
    for the same module and domain, or [pModule] itself, may be there. *)
Theorem AddModule_outcomes (s : State) (pModule : PTR_DebuggerModule)
    (dm : DebuggerModule) :
  m_iBuckets (dmt s) = 101%nat →
  mem s !! pModule = Some dm →
  AddModule false pModule s = Throw_OutOfMemory s ∧
  ∃ s' l1 l2,
    AddModule true pModule s = Done () s' ∧
    mem s' = mem s ∧
    modules s = l1 ++ l2 ∧
    modules s' = l1 ++ pModule :: l2 ∧
    length (modules s') = S (length (modules s)).
Proof.
  intros Hb Hdm. split; [by apply (AddModule_fail s pModule dm)|].
  destruct (AddModule_spec s pModule dm ltac:(lia) Hdm)
    as (s' & l1 & l2 & Hrun & Hh & _ & Hl & Hl' & _).
  exists s', l1, l2. split_and!; try done.
  rewrite Hl, Hl', !length_app. simpl. lia.
Qed.

(** The witness adds a second record for module [1] in domain [7] to a table
    that already holds one. *)
Lemma AddModule_outcomes_witness :
  let s := mkState (<[40 := mkDebuggerModule 1 7 false]> three_records)
                   (dmt three_modules) in
  m_iBuckets (dmt s) = 101%nat ∧
  mem s !! 40 = Some (mkDebuggerModule 1 7 false) ∧
  is_for (mem s) 1 7 10 = true ∧
  AddModule false 40 s = Throw_OutOfMemory s ∧
  ∃ s' l1 l2,
    AddModule true 40 s = Done () s' ∧
    mem s' = mem s ∧
    modules s = l1 ++ l2 ∧
    modules s' = l1 ++ 40 :: l2 ∧
    length (modules s') = S (length (modules s)).
Proof.
  intros s. split; [reflexivity|]. split; [reflexivity|]. split; [reflexivity|].
  apply (AddModule_outcomes s 40 (mkDebuggerModule 1 7 false)); reflexivity.
Defined.

(** ** Single-entry removal *)

(** C5. [RemoveModule(module, domain)] on a consistent registry.  With no
    record for the pair in the table it returns normally and the state,
    hence the entry count, is what it was.  With a record for the pair in the
    table it destroys the record of the first such entry and unlinks that
    entry: the record leaves the store, the table no longer points to it, every
    other entry stays in place, and the count drops by one. *)
Theorem RemoveModule_outcomes (m : PTR_Module) (d : PTR_AppDomain) (s : State) :
  consistent s →
  ((∀ p, p ∈ modules s → is_for (mem s) m d p = false) →
   ∀ fuel, (length (modules s) < fuel)%nat → RemoveModule fuel m d s = Done () s) ∧
  (∀ p, p ∈ modules s → is_for (mem s) m d p = true →
   ∃ q s',
     first_such (is_for (mem s) m d) (modules s) = Some q ∧
     (∀ fuel, (length (modules s) < fuel)%nat → RemoveModule fuel m d s = Done () s') ∧
     mem s' = delete q (mem s) ∧
     modules s' = remove_first (is_for (mem s) m d) (modules s) ∧
     (q ∉ modules s') ∧
     S (length (modules s')) = length (modules s)).
Proof.
  intros Hc.
  destruct (RemoveModule_spec m d s Hc) as (s' & Hrun & Hm & Hh & Hc' & Hno).
  split.
  - intros Hall fuel Hf. rewrite (Hrun fuel Hf). f_equal. apply Hno.
    by apply first_such_None.
  - intros p Hp Hfor.
    destruct (first_such (is_for (mem s) m d) (modules s)) as [q|] eqn:Hq.
    2: { rewrite first_such_None in Hq. rewrite (Hq p Hp) in Hfor. done. }
    exists q, s'. unfold free_first in Hh. rewrite Hq in Hh.
    split_and!; try done.
    + apply first_such_Some in Hq as (l1 & l2 & Hl & Hfq & Hl1).
      rewrite Hm, Hl, remove_first_middle by done.
      pose proof (cons_nodup _ Hc) as Hn. rewrite Hl in Hn.
      apply NoDup_app in Hn as (_ & Hn12 & Hn2). apply NoDup_cons in Hn2 as [Hn2 _].
      intros [Hin|Hin]%elem_of_app; [|done]. apply (Hn12 _ Hin). left.
    + rewrite Hm. by apply length_remove_first with (x := q).
Qed.

Lemma RemoveModule_outcomes_witness :
  consistent three_modules ∧
  ((∀ p, p ∈ modules three_modules → is_for (mem three_modules) 102 8 p = false) ∧
   ∀ fuel, (length (modules three_modules) < fuel)%nat →
           RemoveModule fuel 102 8 three_modules = Done () three_modules) ∧
  (20 ∈ modules three_modules ∧ is_for (mem three_modules) 102 7 20 = true ∧
   ∃ q s',
     first_such (is_for (mem three_modules) 102 7) (modules three_modules) = Some q ∧
     (∀ fuel, (length (modules three_modules) < fuel)%nat →
              RemoveModule fuel 102 7 three_modules = Done () s') ∧
     mem s' = delete q (mem three_modules) ∧
     modules s' = remove_first (is_for (mem three_modules) 102 7) (modules three_modules) ∧
     (q ∉ modules s') ∧
     S (length (modules s')) = length (modules three_modules)).
Proof.
  split; [exact three_modules_consistent|].
  assert (Hall : ∀ p, p ∈ modules three_modules →
                      is_for (mem three_modules) 102 8 p = false).
  { intros p Hp. vm_compute in Hp.
    apply elem_of_cons in Hp as [->|Hp]; [reflexivity|].
    apply elem_of_cons in Hp as [->|Hp]; [reflexivity|].
    apply elem_of_cons in Hp as [->|Hp]; [reflexivity|].
    by apply elem_of_nil in Hp. }
  assert (H20 : 20 ∈ modules three_modules).
  { vm_compute. right. left. }
  split; [split; [exact Hall|]|split; [exact H20|split; [reflexivity|]]].
  - exact (proj1 (RemoveModule_outcomes 102 8 three_modules three_modules_consistent) Hall).
  - exact (proj2 (RemoveModule_outcomes 102 7 three_modules three_modules_consistent)
             20 H20 eq_refl).
Defined.

(** ** Teardown *)

Lemma indexed_nil t : entries t = [] → indexed t = [].
Proof. intros H. apply nil_length_inv. by rewrite length_indexed, H. Qed.

Lemma GetFirstModule_empty s :
  entries (dmt s) = [] → ∃ info, GetFirstModule s = Done (None, info) s.
Proof.
  intros H. unfold GetFirstModule, mbind, M_bind, FindFirstEntry_.
  pose proof (FindFirstEntry_at (dmt s)) as Hat. rewrite (indexed_nil _ H) in Hat.
  destruct (FindFirstEntry (dmt s)) as [e info]. simpl in Hat. subst e.
  by exists info.
Qed.

(** C7. [Clear] on a consistent registry returns; the state it leaves is a
    freshly constructed registry over the store without the records the table
    pointed to.  Hence an iteration started right after yields no entry, and
    [AddModule] then behaves as on a new registry: with the entry allocated,
    it leaves the added record as the one entry of a consistent table. *)
Theorem Clear_leaves_fresh_registry (s : State) :
  consistent s →
  ∃ s',
    (∀ fuel, (length (modules s) < fuel)%nat → Clear fuel s = Done () s') ∧
    s' = fresh (free_all (modules s) (mem s)) ∧
    (∀ p, p ∈ modules s → mem s' !! p = None) ∧
    modules s' = [] ∧
    (∃ info, GetFirstModule s' = Done (None, info) s') ∧
    (∀ pModule dm, mem s' !! pModule = Some dm →
       ∃ s2, AddModule true pModule s' = Done () s2 ∧
              modules s2 = [pModule] ∧ consistent s2).
Proof.
  intros Hc. exists (fresh (free_all (modules s) (mem s))).
  assert (Hnil : modules (fresh (free_all (modules s) (mem s))) = []).
  { unfold modules, fresh, DebuggerModuleTable_ctor. cbn [dmt]. by rewrite entries_ctor. }
  split_and!; try done.
  - intros fuel Hf. rewrite (Clear_spec fuel s Hc Hf).
    by rewrite (cons_buckets _ Hc).
  - intros p Hp. unfold fresh. cbn [mem]. by apply lookup_free_all_elem.
  - apply GetFirstModule_empty. unfold fresh, DebuggerModuleTable_ctor. cbn [dmt].
    apply entries_ctor.
  - intros pModule dm Hdm.
    pose proof (fresh_consistent (free_all (modules s) (mem s))) as Hfc.
    destruct (AddModule_spec _ pModule dm ltac:(rewrite (cons_buckets _ Hfc); lia) Hdm)
      as (s2 & l1 & l2 & Hrun & _ & _ & Hl & Hl' & _).
    exists s2. rewrite Hnil in Hl. symmetry in Hl.
    apply app_eq_nil in Hl as [-> ->]. split_and!; try done.
    apply (AddModule_consistent _ pModule dm _ Hfc Hdm); [|done].
    rewrite Hnil. apply not_elem_of_nil.
Qed.

Lemma Clear_leaves_fresh_registry_witness :
  consistent three_modules ∧
  ∃ s',
    (∀ fuel, (length (modules three_modules) < fuel)%nat →
             Clear fuel three_modules = Done () s') ∧
    s' = fresh (free_all (modules three_modules) (mem three_modules)) ∧
    (∀ p, p ∈ modules three_modules → mem s' !! p = None) ∧
    modules s' = [] ∧
    (∃ info, GetFirstModule s' = Done (None, info) s') ∧
    (∀ pModule dm, mem s' !! pModule = Some dm →
       ∃ s2, AddModule true pModule s' = Done () s2 ∧
              modules s2 = [pModule] ∧ consistent s2).
Proof.
  split; [exact three_modules_consistent|].
  exact (Clear_leaves_fresh_registry three_modules three_modules_consistent).
Defined.

Example Clear_three_modules :
  Clear 4 three_modules = Done () (fresh ∅).
Proof. vm_compute. reflexivity. Qed.

(** ** Bulk removal *)

Lemma in_domain_after_RemoveModules D s p :
  p ∈ keep (λ p, negb (in_domain (mem s) D p)) (modules s) →
  free_all (keep (in_domain (mem s) D) (modules s)) (mem s) !! p = mem s !! p.
Proof.
  intros [Hp Hd]%elem_of_keep. apply lookup_free_all.
  intros [_ Hd']%elem_of_keep. rewrite Hd' in Hd. done.
Qed.

(** C4. [RemoveModules(domain)] on a consistent registry terminates: with
    fuel for (n+1)² iterations, n the number of entries, it returns, and the
    state it returns does not depend on the fuel.  The state it leaves has no
    record of the domain.  Its course is that of [RemoveModules_step]: when a
    scan from the first entry meets no record of the domain the state is
    left as it is; otherwise the first such record is handed to [RemoveModule]
    with its own module and the domain, which destroys and unlinks exactly
    that record, and the outcome is that of a run from the first entry of the
    table so reduced. *)
Theorem RemoveModules_terminates (D : PTR_AppDomain) (s : State) :
  consistent s →
  ∃ s',
    (∀ fuel, ((length (modules s) + 1) * (length (modules s) + 1) ≤ fuel)%nat →
             RemoveModules fuel D s = Done () s') ∧
    (∀ p, p ∈ modules s' → in_domain (mem s') D p = false) ∧
    RemoveModules_step D s s'.
Proof.
  intros Hc.
  destruct (RemoveModules_spec D s Hc) as (s' & Hrun & Hm & Hh & Hc' & Hstep).
  exists s'. split_and!; try done.
  intros p Hp. rewrite Hm in Hp. unfold in_domain.
  rewrite Hh, (in_domain_after_RemoveModules D s p Hp).
  apply elem_of_keep in Hp as [_ Hd]. fold (in_domain (mem s) D p).
  by destruct (in_domain (mem s) D p).
Qed.

Lemma RemoveModules_terminates_witness :
  consistent three_modules ∧
  ∃ s',
    (∀ fuel, ((length (modules three_modules) + 1)
              * (length (modules three_modules) + 1) ≤ fuel)%nat →
             RemoveModules fuel 7 three_modules = Done () s') ∧
    (∀ p, p ∈ modules s' → in_domain (mem s') 7 p = false) ∧
    RemoveModules_step 7 three_modules s'.
Proof.
  split; [exact three_modules_consistent|].
  exact (RemoveModules_terminates 7 three_modules three_modules_consistent).
Defined.

(** C2. A consistent registry with [N] records of domain [D] and [M] records
    of other domains.  [RemoveModules(D)] returns and leaves exactly the [M]
    records of the other domains, in their order and untouched; none of them
    is of domain [D]; the [N] records of [D] are destroyed.  A second call
    returns the very state it is given. *)
Theorem RemoveModules_leaves_other_domains (D : PTR_AppDomain) (s : State)
    (N M : nat) :
  consistent s →
  length (keep (in_domain (mem s) D) (modules s)) = N →
  length (keep (λ p, negb (in_domain (mem s) D p)) (modules s)) = M →
  ∃ s',
    (∀ fuel, ((N + M + 1) * (N + M + 1) ≤ fuel)%nat →
             RemoveModules fuel D s = Done () s') ∧
    modules s' = keep (λ p, negb (in_domain (mem s) D p)) (modules s) ∧
    length (modules s') = M ∧
    (∀ p, p ∈ modules s' →
          in_domain (mem s') D p = false ∧ mem s' !! p = mem s !! p) ∧
    (∀ p, p ∈ modules s → in_domain (mem s) D p = true → mem s' !! p = None) ∧
    (∀ fuel, ((N + M + 1) * (N + M + 1) ≤ fuel)%nat →
             RemoveModules fuel D s' = Done () s').
Proof.
  intros Hc HN HM.
  pose proof (length_keep_negb (in_domain (mem s) D) (modules s)) as Hlen.
  rewrite HN, HM in Hlen.
  destruct (RemoveModules_spec D s Hc) as (s' & Hrun & Hm & Hh & Hc' & _).
  assert (Hnone : ∀ p, p ∈ modules s' → in_domain (mem s') D p = false
                                        ∧ mem s' !! p = mem s !! p).
  { intros p Hp. rewrite Hm in Hp.
    pose proof (in_domain_after_RemoveModules D s p Hp) as Hlk.
    rewrite <- Hh in Hlk. split; [|done]. unfold in_domain. rewrite Hlk.
    apply elem_of_keep in Hp as [_ Hd]. fold (in_domain (mem s) D p).
    by destruct (in_domain (mem s) D p). }
  exists s'. split_and!; try done.
  - intros fuel Hf. apply Hrun. rewrite <- Hlen. done.
  - by rewrite Hm.
  - intros p Hp Hd. rewrite Hh. apply lookup_free_all_elem.
    by apply elem_of_keep.
  - destruct (RemoveModules_spec D s' Hc') as (s2 & Hrun2 & _ & _ & _ & Hstep).
    unfold RemoveModules_step in Hstep.
    assert (Hfs : first_such (in_domain (mem s') D) (modules s') = None).
    { apply first_such_None. intros p Hp. by apply Hnone. }
    rewrite Hfs in Hstep. subst s2.
    intros fuel Hf. apply Hrun2. rewrite Hm, HM. nia.
Qed.

(** The scenario of the spec: (m1, d1), (m2, d1) and (m1, d2) are entered,
    then the modules of d1 are removed. *)
Lemma RemoveModules_leaves_other_domains_witness :
  consistent three_modules ∧
  length (keep (in_domain (mem three_modules) 7) (modules three_modules)) = 2%nat ∧
  length (keep (λ p, negb (in_domain (mem three_modules) 7 p))
               (modules three_modules)) = 1%nat ∧
  ∃ s',
    (∀ fuel, ((2 + 1 + 1) * (2 + 1 + 1) ≤ fuel)%nat →
             RemoveModules fuel 7 three_modules = Done () s') ∧
    modules s' = keep (λ p, negb (in_domain (mem three_modules) 7 p))
                      (modules three_modules) ∧
    length (modules s') = 1%nat ∧
    (∀ p, p ∈ modules s' →
          in_domain (mem s') 7 p = false ∧ mem s' !! p = mem three_modules !! p) ∧
    (∀ p, p ∈ modules three_modules → in_domain (mem three_modules) 7 p = true →
          mem s' !! p = None) ∧
    (∀ fuel, ((2 + 1 + 1) * (2 + 1 + 1) ≤ fuel)%nat →
             RemoveModules fuel 7 s' = Done () s').
Proof.
  split; [exact three_modules_consistent|].
  split; [reflexivity|]. split; [reflexivity|].
  apply (RemoveModules_leaves_other_domains 7 three_modules 2 1
           three_modules_consistent); reflexivity.
Defined.

Example RemoveModules_scenario :
  let s' := mkState (<[30 := mkDebuggerModule 1 8 true]> ∅)
                    (mkTable (<[1%nat := [mkEntry 30]]> (replicate 101 []))) in
  RemoveModules 16 7 three_modules = Done () s' ∧
  modules s' = [30] ∧
  GetModule2 16 1 7 s' = Done None s' ∧
  GetModule2 16 1 8 s' = Done (Some 30) s' ∧
  RemoveModules 16 7 s' = Done () s'.
Proof. vm_compute. split_and!; reflexivity. Qed.

(** ** One module in two domains *)

Lemma is_for_of_module h m d p : is_for h m d p = true → of_module h m p = true.
Proof.
  unfold is_for, of_module. destruct (h !! p); [|done].
  by intros [H _]%andb_true_iff.
Qed.

Lemma AddModule_twice s p1 p2 dm1 dm2 :
  consistent s →
  mem s !! p1 = Some dm1 → mem s !! p2 = Some dm2 →
  p1 ∉ modules s → p2 ∉ modules s → p1 ≠ p2 →
  m_pRuntimeModule dm1 = m_pRuntimeModule dm2 →
  ∃ s1 s2 la lb lc,
    AddModule true p1 s = Done () s1 ∧
    AddModule true p2 s1 = Done () s2 ∧
    mem s2 = mem s ∧
    consistent s2 ∧
    modules s2 = la ++ p2 :: lb ++ p1 :: lc ∧
    (∀ q, q ∈ la ++ lb → of_module (mem s) (m_pRuntimeModule dm1) q = false).
Proof.
  intros Hc Hdm1 Hdm2 Hn1 Hn2 Hne Hrt.
  pose proof (cons_buckets _ Hc) as Hb.
  destruct (AddModule_spec s p1 dm1 ltac:(lia) Hdm1)
    as (s1 & l1 & l2 & Hrun1 & Hh1 & Hlen1 & Hl & Hl1 & _ & Hbefore1).
  pose proof (AddModule_consistent s p1 dm1 s1 Hc Hdm1 Hn1 Hrun1) as Hc1.
  rewrite <- Hh1 in Hdm2.
  destruct (AddModule_spec s1 p2 dm2 ltac:(rewrite Hlen1; lia) Hdm2)
    as (s2 & l1' & l2' & Hrun2 & Hh2 & Hlen2 & Hl' & Hl2 & _ & Hbefore2).
  assert (Hn2' : p2 ∉ modules s1).
  { rewrite Hl1. rewrite Hl in Hn2. intros [H|H]%elem_of_app.
    - apply Hn2, elem_of_app. by left.
    - apply elem_of_cons in H as [H|H]; [done|]. apply Hn2, elem_of_app. by right. }
  pose proof (AddModule_consistent s1 p2 dm2 s2 Hc1 Hdm2 Hn2' Hrun2) as Hc2.
  specialize (Hbefore1 (cons_placed _ Hc)). specialize (Hbefore2 (cons_placed _ Hc1)).
  rewrite Hh1, <- Hrt in Hbefore2.
  assert (Hp1 : of_module (mem s) (m_pRuntimeModule dm1) p1 = true).
  { unfold of_module. rewrite Hdm1. apply N.eqb_refl. }
  rewrite Hl1 in Hl'. apply List.app_eq_app in Hl' as [l [[H1 H2]|[H1 H2]]].
  - exists s1, s2, l1', l, l2. subst l1 l2'.
    split_and!; try done. by rewrite Hh2.
  - destruct l as [|x l]; simpl in H2.
    + exists s1, s2, l1, [], l2. rewrite app_nil_r in H1. subst l1' l2'.
      split_and!; try done; [by rewrite Hh2|].
      intros q Hq. rewrite app_nil_r in Hq. by apply Hbefore1.
    + injection H2 as <- H2. rewrite (Hbefore2 p1) in Hp1; [done|].
      rewrite H1. apply elem_of_app. right. left.
Qed.

(** C3. Two records for one engine module in two different domains are
    added to a consistent registry that holds neither.  Afterwards the lookup
    by module and domain returns each record for its own domain, and the
    lookup by module alone returns one of the two. *)
Theorem shared_module_in_two_domains (s : State) (p1 p2 : PTR_DebuggerModule)
    (dm1 dm2 : DebuggerModule) :
  consistent s →
  mem s !! p1 = Some dm1 → mem s !! p2 = Some dm2 →
  p1 ∉ modules s → p2 ∉ modules s → p1 ≠ p2 →
  m_pRuntimeModule dm1 = m_pRuntimeModule dm2 →
  m_pAppDomain dm1 ≠ m_pAppDomain dm2 →
  ∃ s2,
    (AddModule true p1 ≫= λ _, AddModule true p2) s = Done () s2 ∧
    (∀ fuel, (length (modules s2) < fuel)%nat →
       GetModule2 fuel (m_pRuntimeModule dm1) (m_pAppDomain dm1) s2 = Done (Some p1) s2 ∧
       GetModule2 fuel (m_pRuntimeModule dm2) (m_pAppDomain dm2) s2 = Done (Some p2) s2) ∧
    (GetModule (m_pRuntimeModule dm1) s2 = Done (Some p1) s2 ∨
     GetModule (m_pRuntimeModule dm1) s2 = Done (Some p2) s2).
Proof.
  intros Hc Hdm1 Hdm2 Hn1 Hn2 Hne Hrt Had.
  destruct (AddModule_twice s p1 p2 dm1 dm2 Hc Hdm1 Hdm2 Hn1 Hn2 Hne Hrt)
    as (s1 & s2 & la & lb & lc & Hrun1 & Hrun2 & Hh & Hc2 & Hm & Hbefore).
  exists s2. split; [by rewrite (bind_Done _ _ _ _ _ Hrun1)|].
  assert (Hfor1 : is_for (mem s) (m_pRuntimeModule dm1) (m_pAppDomain dm1) p1 = true).
  { apply is_for_true. eauto. }
  assert (Hfor2 : is_for (mem s) (m_pRuntimeModule dm1) (m_pAppDomain dm2) p2 = true).
  { apply is_for_true. eauto. }
  assert (Hfor21 : is_for (mem s) (m_pRuntimeModule dm1) (m_pAppDomain dm1) p2 = false).
  { unfold is_for. rewrite Hdm2. apply andb_false_iff. right. apply N.eqb_neq. congruence. }
  assert (Hnot : ∀ d q, q ∈ la ++ lb → is_for (mem s) (m_pRuntimeModule dm1) d q = false).
  { intros d q Hq. destruct (is_for _ _ d q) eqn:E; [|done].
    apply is_for_of_module in E. by rewrite (Hbefore q Hq) in E. }
  split.
  - intros fuel Hf. rewrite !GetModule2_spec by (done || apply Hc2).
    rewrite Hh, Hm, <- Hrt. split; f_equal.
    + replace (la ++ p2 :: lb ++ p1 :: lc) with ((la ++ p2 :: lb) ++ p1 :: lc)
        by (by rewrite <- app_assoc).
      apply first_such_middle; [|done].
      intros q [Hq|Hq]%elem_of_app.
      * apply Hnot, elem_of_app. by left.
      * apply elem_of_cons in Hq as [->|Hq]; [done|]. apply Hnot, elem_of_app. by right.
    + apply first_such_middle; [|done]. intros q Hq. apply Hnot, elem_of_app. by left.
  - right. rewrite GetModule_spec; [|apply Hc2|rewrite (cons_buckets _ Hc2); lia].
    f_equal. rewrite Hh, Hm. apply first_such_middle.
    + intros q Hq. apply Hbefore, elem_of_app. by left.
    + unfold of_module. rewrite Hdm2, Hrt. apply N.eqb_refl.
Qed.

(** Two records for module [1], in domains [7] and [8], over an empty
    registry. *)
Lemma shared_module_in_two_domains_witness :
  let s := fresh three_records in
  consistent s ∧
  mem s !! 10 = Some (mkDebuggerModule 1 7 false) ∧
  mem s !! 30 = Some (mkDebuggerModule 1 8 true) ∧
  ∃ s2,
    (AddModule true 10 ≫= λ _, AddModule true 30) s = Done () s2 ∧
    (∀ fuel, (length (modules s2) < fuel)%nat →
       GetModule2 fuel 1 7 s2 = Done (Some 10) s2 ∧
       GetModule2 fuel 1 8 s2 = Done (Some 30) s2) ∧
    (GetModule 1 s2 = Done (Some 10) s2 ∨ GetModule 1 s2 = Done (Some 30) s2).
Proof.
  intros s. split; [apply fresh_consistent|]. split; [reflexivity|]. split; [reflexivity|].
  apply (shared_module_in_two_domains s 10 30 (mkDebuggerModule 1 7 false)
           (mkDebuggerModule 1 8 true)).
  - apply fresh_consistent.
  - reflexivity.
  - reflexivity.
  - vm_compute. apply not_elem_of_nil.
  - vm_compute. apply not_elem_of_nil.
  - discriminate.
  - reflexivity.
  - discriminate.
Defined.

(** ** The two compilation modes *)

(** The member functions of [DebuggerModuleTable] defined in the file. *)
Inductive Call : Type :=
| Call_RemoveModules (pAppDomain : PTR_AppDomain)
| Call_Clear
| Call_AddModule (fAlloc : bool) (pModule : PTR_DebuggerModule)
| Call_RemoveModule (pModule : PTR_Module) (pAppDomain : PTR_AppDomain)
| Call_GetModule (module : PTR_Module)
| Call_GetModule2 (module : PTR_Module) (pAppDomain : PTR_AppDomain)
| Call_GetFirstModule
| Call_GetNextModule (info : HASHFIND).

Inductive Ret : Type :=
| Ret_void
| Ret_module (pDM : option PTR_DebuggerModule)
| Ret_cursor (pDM : option PTR_DebuggerModule) (info : HASHFIND).

(** The functions between [#ifndef DACCESS_COMPILE] and its [#endif] are
    compiled only when [DACCESS_COMPILE] is not defined; the two [GetModule],
    [GetFirstModule] and [GetNextModule] come after the [#endif]. *)
Definition compiled (DACCESS_COMPILE : bool) (c : Call) : bool :=
  match c with
  | Call_RemoveModules _ | Call_Clear | Call_AddModule _ _ | Call_RemoveModule _ _ =>
      negb DACCESS_COMPILE
  | Call_GetModule _ | Call_GetModule2 _ _ | Call_GetFirstModule
  | Call_GetNextModule _ => true
  end.

Definition body (fuel : nat) (c : Call) : M Ret :=
  match c with
  | Call_RemoveModules d => RemoveModules fuel d;; mret Ret_void
  | Call_Clear => Clear fuel;; mret Ret_void
  | Call_AddModule fAlloc p => AddModule fAlloc p;; mret Ret_void
  | Call_RemoveModule m d => RemoveModule fuel m d;; mret Ret_void
  | Call_GetModule m => r ← GetModule m; mret (Ret_module r)
  | Call_GetModule2 m d => r ← GetModule2 fuel m d; mret (Ret_module r)
  | Call_GetFirstModule => '(r, info) ← GetFirstModule; mret (Ret_cursor r info)
  | Call_GetNextModule info => '(r, info') ← GetNextModule info; mret (Ret_cursor r info')
  end.

(** What a build offers: the body of a member function it compiles, nothing
    for one it leaves out. *)
Definition call (DACCESS_COMPILE : bool) (fuel : nat) (c : Call) : option (M Ret) :=
  if compiled DACCESS_COMPILE c then Some (body fuel c) else None.

Definition is_lookup (c : Call) : Prop :=
  match c with
  | Call_GetModule _ | Call_GetModule2 _ _ | Call_GetFirstModule
  | Call_GetNextModule _ => True
  | _ => False
  end.

Lemma reads_only_entry_module p : reads_only (entry_module p).
Proof. apply reads_only_get_opt. Qed.

Lemma reads_only_GetRuntimeModule p : reads_only (GetRuntimeModule p).
Proof. apply reads_only_get_opt. Qed.

Lemma reads_only_GetAppDomain p : reads_only (GetAppDomain p).
Proof. apply reads_only_get_opt. Qed.

Lemma reads_only_FindNextEntry_ hf : reads_only (FindNextEntry_ hf).
Proof. intros s. right. right. by eexists. Qed.

Lemma reads_only_FindFirstEntry_ : reads_only FindFirstEntry_.
Proof. intros s. right. right. by eexists. Qed.

Lemma reads_only_GetModule2_loop m d : ∀ fuel e hf,
  reads_only (GetModule2_loop fuel m d e hf).
Proof.
  induction fuel as [|fuel IH]; intros e hf; simpl.
  - intros s. auto.
  - destruct e as [e|]; [|apply reads_only_ret].
    apply reads_only_bind; [apply reads_only_entry_module|intros pModule].
    apply reads_only_bind; [apply reads_only_GetRuntimeModule|intros rt].
    apply reads_only_bind; [apply reads_only_GetAppDomain|intros ad].
    destruct ((rt =? m) && (ad =? d)); [apply reads_only_ret|].
    apply reads_only_bind; [apply reads_only_FindNextEntry_|intros [e' hf']].
    apply IH.
Qed.

Lemma reads_only_GetModule2 fuel m d : reads_only (GetModule2 fuel m d).
Proof.
  apply reads_only_bind; [apply reads_only_FindFirstEntry_|intros [e hf]].
  apply reads_only_GetModule2_loop.
Qed.

Lemma reads_only_Find_chain key b : ∀ c i, reads_only (Find_chain key b i c).
Proof.
  induction c as [|e c IH]; intros i; simpl; [apply reads_only_ret|].
  apply reads_only_bind.
  - apply reads_only_bind; [apply reads_only_GetRuntimeModule|intros rt].
    apply reads_only_ret.
  - intros [|]; [apply IH|apply reads_only_ret].
Qed.

Lemma reads_only_GetModule m : reads_only (GetModule m).
Proof.
  apply reads_only_bind.
  - intros s. unfold Find.
    destruct (m_piBuckets (dmt s) !! bucket_of (dmt s) (HASH m)); [|auto].
    apply reads_only_Find_chain.
  - intros [e|]; [|apply reads_only_ret].
    apply reads_only_bind; [apply reads_only_entry_module|intros pDM].
    apply reads_only_ret.
Qed.

Lemma reads_only_GetFirstModule : reads_only GetFirstModule.
Proof.
  apply reads_only_bind; [apply reads_only_FindFirstEntry_|intros [[e|] info]];
    [|apply reads_only_ret].
  apply reads_only_bind; [apply reads_only_entry_module|intros pDM].
  apply reads_only_ret.
Qed.

Lemma reads_only_GetNextModule info : reads_only (GetNextModule info).
Proof.
  apply reads_only_bind; [apply reads_only_FindNextEntry_|intros [[e|] info']];
    [|apply reads_only_ret].
  apply reads_only_bind; [apply reads_only_entry_module|intros pDM].
  apply reads_only_ret.
Qed.

Lemma FindNextEntry_from_valid t chains : ∀ b i p hf,
  drop b (m_piBuckets t) = chains →
  FindNextEntry_from chains b i = (Some p, hf) →
  is_Some (EntryPtr t p).
Proof.
  induction chains as [|c rest IH]; intros b i p hf Hd; simpl; [done|].
  case_decide as Hi.
  - intros [= <- <-]. unfold EntryPtr. simpl.
    assert (Hb : m_piBuckets t !! b = Some c).
    { rewrite <- (Nat.add_0_r b), <- lookup_drop, Hd. done. }
    rewrite Hb. simpl. by apply lookup_lt_is_Some_2.
  - apply IH. by eapply drop_cons_S.
Qed.

Lemma GetNextModule_Done info s : ∃ r, GetNextModule info s = Done r s.
Proof.
  unfold GetNextModule, mbind, M_bind, FindNextEntry_.
  destruct (FindNextEntry (dmt s) info) as [[e|] info'] eqn:E; [|by eexists].
  destruct (FindNextEntry_from_valid (dmt s) _ _ _ _ _ eq_refl E) as [en Hen].
  rewrite (entry_module_Done _ _ _ Hen). by eexists.
Qed.

Lemma GetFirstModule_Done s : ∃ r, GetFirstModule s = Done r s.
Proof.
  unfold GetFirstModule, mbind, M_bind, FindFirstEntry_.
  destruct (FindFirstEntry (dmt s)) as [[e|] info'] eqn:E; [|by eexists].
  destruct (FindNextEntry_from_valid (dmt s) _ _ _ _ _ eq_refl E) as [en Hen].
  rewrite (entry_module_Done _ _ _ Hen). by eexists.
Qed.

(** C8. With [DACCESS_COMPILE] defined the build offers the two [GetModule],
    [GetFirstModule] and [GetNextModule], and none of [AddModule],
    [RemoveModule], [RemoveModules] and [Clear]; the other build offers them
    all.  Whatever the read-only build offers returns, if it returns, in the
    state it was called in, store and table alike; and it is the function the
    other build offers under the same name, so both builds compute the same
    result from the same state.  On a consistent registry, given fuel for one
    scan, each of them does return. *)
Theorem read_only_mode_surface :
  (∀ c, compiled true c = true ↔ is_lookup c) ∧
  (∀ fuel c, call true fuel c = None ↔ ¬ is_lookup c) ∧
  (∀ c, compiled false c = true) ∧
  (∀ fuel c run, call true fuel c = Some run → reads_only run) ∧
  (∀ fuel c run, call true fuel c = Some run → call false fuel c = Some run) ∧
  (∀ fuel c run s, call true fuel c = Some run → consistent s →
     (length (modules s) < fuel)%nat → ∃ r, run s = Done r s).
Proof.
  split_and!.
  - intros []; simpl; naive_solver.
  - intros fuel []; unfold call; simpl; naive_solver.
  - by intros [].
  - intros fuel c run. unfold call.
    destruct c as [d| |fAlloc p|m d|m|m d| |info]; simpl; try done; intros [= <-];
      (apply reads_only_bind; [|intros r; try destruct r; apply reads_only_ret]).
    + apply reads_only_GetModule.
    + apply reads_only_GetModule2.
    + apply reads_only_GetFirstModule.
    + apply reads_only_GetNextModule.
  - intros fuel c run. unfold call. by destruct c.
  - intros fuel c run s. unfold call.
    destruct c as [d| |fAlloc p|m d|m|m d| |info]; simpl; try done;
      intros [= <-] Hc Hf.
    + rewrite (bind_Done _ _ _ _ _
                 (GetModule_spec m s (cons_placed _ Hc)
                    ltac:(rewrite (cons_buckets _ Hc); lia))).
      by eexists.
    + rewrite (bind_Done _ _ _ _ _ (GetModule2_spec fuel m d s (cons_placed _ Hc) Hf)).
      by eexists.
    + destruct (GetFirstModule_Done s) as [[r info] Hr].
      rewrite (bind_Done _ _ _ _ _ Hr). by eexists.
    + destruct (GetNextModule_Done info s) as [[r info'] Hr].
      rewrite (bind_Done _ _ _ _ _ Hr). by eexists.
Qed.

Lemma read_only_mode_surface_witness :
  call true 4 (Call_AddModule true 10) = None ∧
  call true 4 Call_Clear = None ∧
  (call true 4 (Call_GetModule2 1 8) = Some (body 4 (Call_GetModule2 1 8)) ∧
   reads_only (body 4 (Call_GetModule2 1 8)) ∧
   call false 4 (Call_GetModule2 1 8) = Some (body 4 (Call_GetModule2 1 8)) ∧
   ∃ r, body 4 (Call_GetModule2 1 8) three_modules = Done r three_modules).
Proof.
  destruct read_only_mode_surface as (_ & Hnone & _ & Hro & Hsame & Hdone).
  split; [apply (proj2 (Hnone 4%nat (Call_AddModule true 10))); simpl; tauto|].
  split; [apply (proj2 (Hnone 4%nat Call_Clear)); simpl; tauto|].
  split; [reflexivity|]. split; [by apply (Hro 4%nat (Call_GetModule2 1 8))|].
  split; [by apply (Hsame 4%nat (Call_GetModule2 1 8))|].
  apply (Hdone 4%nat (Call_GetModule2 1 8)); try done.
  - exact three_modules_consistent.
  - vm_compute. lia.
Defined.

(** ** Sequences of insertions and removals *)

(** An insertion is the engine's module-load notification: the caller
    constructs the shadow record at a new address and enters it; a removal is
    the module-unload notification. *)
Inductive Op : Type :=
| OpInsert (p : PTR_DebuggerModule) (dm : DebuggerModule)
| OpRemoveOne (m : PTR_Module) (d : PTR_AppDomain).

(** Modelled from the spec: the construction of the shadow record is the
    caller's, outside the sources. *)
Definition new_DebuggerModule (p : PTR_DebuggerModule) (dm : DebuggerModule) : M () :=
  λ s, Done () (mkState (<[p := dm]> (mem s)) (dmt s)).

Definition run_op (fuel : nat) (op : Op) : M () :=
  match op with
  | OpInsert p dm => new_DebuggerModule p dm;; AddModule true p
  | OpRemoveOne m d => RemoveModule fuel m d
  end.

Fixpoint run (fuel : nat) (ops : list Op) : M () :=
  match ops with
  | [] => mret ()
  | op :: ops' => run_op fuel op;; run fuel ops'
  end.

(** The records a sequence inserts, with their addresses. *)
Definition inserted (ops : list Op) : list (PTR_DebuggerModule * DebuggerModule) :=
  omap (λ op, match op with OpInsert p dm => Some (p, dm) | OpRemoveOne _ _ => None end) ops.

Definition pair_of (x : PTR_DebuggerModule * DebuggerModule) : PTR_Module * PTR_AppDomain :=
  (m_pRuntimeModule x.2, m_pAppDomain x.2).

(** What the spec expects of the lookup after a sequence: the record last
    inserted for the pair, unless the pair was removed since. *)
Definition expected_step (m : PTR_Module) (d : PTR_AppDomain)
    (acc : option PTR_DebuggerModule) (op : Op) : option PTR_DebuggerModule :=
  match op with
  | OpInsert p dm =>
      if (m_pRuntimeModule dm =? m) && (m_pAppDomain dm =? d) then Some p else acc
  | OpRemoveOne m' d' =>
      if (m' =? m) && (d' =? d) then None else acc
  end.

Definition expected (ops : list Op) (m : PTR_Module) (d : PTR_AppDomain)
  : option PTR_DebuggerModule :=
  foldl (expected_step m d) None ops.

Lemma run_app fuel l1 l2 s :
  run fuel (l1 ++ l2) s = (run fuel l1 ≫= λ _, run fuel l2) s.
Proof.
  revert s. induction l1 as [|op l1 IH]; intros s; simpl; [done|].
  unfold mbind, M_bind. destruct (run_op fuel op s); first [done|apply IH].
Qed.

Lemma NoDup_fmap_inj_on {A B} (f : A → B) (l : list A) x y :
  NoDup (f <$> l) → x ∈ l → y ∈ l → f x = f y → x = y.
Proof.
  induction l as [|z l IH]; intros Hn Hx Hy Hf; [by apply elem_of_nil in Hx|].
  simpl in Hn. apply NoDup_cons in Hn as [Hz Hn].
  apply elem_of_cons in Hx as [->|Hx]; apply elem_of_cons in Hy as [->|Hy]; auto.
  - destruct Hz. rewrite Hf. by apply list_elem_of_fmap_2.
  - destruct Hz. rewrite <- Hf. by apply list_elem_of_fmap_2.
Qed.

Lemma first_such_skip {A} (f : A → bool) l1 x l2 :
  f x = false → first_such f (l1 ++ x :: l2) = first_such f (l1 ++ l2).
Proof. intros H. rewrite !first_such_app. simpl. by rewrite H. Qed.

Lemma remove_first_unique {A} (f : A → bool) (l : list A) :
  NoDup l → (∀ x y, x ∈ l → y ∈ l → f x = true → f y = true → x = y) →
  ∀ q, q ∈ remove_first f l → f q = false.
Proof.
  intros Hn Hu q Hq. destruct (first_such f l) as [x|] eqn:Hx.
  - apply first_such_Some in Hx as (l1 & l2 & -> & Hfx & Hl1).
    rewrite remove_first_middle in Hq by done.
    apply NoDup_app in Hn as (_ & _ & Hn2). apply NoDup_cons in Hn2 as [Hn2 _].
    apply elem_of_app in Hq as [Hq|Hq]; [by apply Hl1|].
    destruct (f q) eqn:E; [|done]. destruct Hn2.
    rewrite <- (Hu q x); try done.
    + apply elem_of_app. right. by right.
    + apply elem_of_app. right. left.
  - rewrite remove_first_None in Hq by done.
    by apply (proj1 (first_such_None f l) Hx).
Qed.

Lemma new_consistent s p dm :
  consistent s → mem s !! p = None →
  consistent (mkState (<[p := dm]> (mem s)) (dmt s)).
Proof.
  intros [Hb Hp Hn] Hfresh. constructor; simpl; [done| |done].
  intros b c e Hc He. destruct (Hp b c e Hc He) as (dm' & Hdm' & Hbk).
  exists dm'. split; [|done]. simpl. rewrite lookup_insert_ne; [done|].
  intros ->. discriminate (eq_trans (eq_sym Hdm') Hfresh).
Qed.

(** The invariant of a run: the registry is consistent, its store holds
    only records the sequence inserted, and the scan for any pair finds what
    the spec expects. *)
Record run_inv (ops : list Op) (s : State) : Prop := mkRunInv {
  inv_consistent : consistent s;
  inv_store : ∀ p dm, mem s !! p = Some dm → (p, dm) ∈ inserted ops;
  inv_length : (length (modules s) ≤ length ops)%nat;
  inv_lookup : ∀ m d, first_such (is_for (mem s) m d) (modules s) = expected ops m d
}.

Lemma store_unique ops (h : gmap TADDR DebuggerModule) x y m d :
  NoDup (pair_of <$> inserted ops) →
  (∀ p dm, h !! p = Some dm → (p, dm) ∈ inserted ops) →
  is_for h m d x = true → is_for h m d y = true → x = y.
Proof.
  intros Hn Hstore (dx & Hdx & Hmx & Hax)%is_for_true (dy & Hdy & Hmy & Hay)%is_for_true.
  apply Hstore in Hdx, Hdy.
  assert (Heq : (x, dx) = (y, dy)); [|by injection Heq].
  apply (NoDup_fmap_inj_on pair_of (inserted ops)); try done.
  unfold pair_of. simpl. congruence.
Qed.

Lemma inserted_snoc_insert ops p dm :
  inserted (ops ++ [OpInsert p dm]) = inserted ops ++ [(p, dm)].
Proof. unfold inserted. by rewrite omap_app. Qed.

Lemma inserted_snoc_remove ops m d :
  inserted (ops ++ [OpRemoveOne m d]) = inserted ops.
Proof. unfold inserted. rewrite omap_app. simpl. by rewrite app_nil_r. Qed.

Lemma run_inv_insert ops s p dm :
  NoDup (pair_of <$> inserted (ops ++ [OpInsert p dm])) →
  mem s !! p = None →
  run_inv ops s →
  ∃ s', (∀ fuel, run_op fuel (OpInsert p dm) s = Done () s') ∧
        run_inv (ops ++ [OpInsert p dm]) s'.
Proof.
  intros Hpairs Hfresh Hinv. pose proof Hpairs as Hpairs'.
  rewrite inserted_snoc_insert in Hpairs.
  rewrite fmap_app in Hpairs.
  apply NoDup_app in Hpairs as (Hpairs0 & Hpn & _).
  destruct Hinv as [Hc Hstore Hlen Hlook].
  set (sa := mkState (<[p := dm]> (mem s)) (dmt s)).
  pose proof (new_consistent s p dm Hc Hfresh) as Hca. fold sa in Hca.
  assert (Hdm : mem sa !! p = Some dm) by apply lookup_insert_eq.
  assert (Hba : (0 < m_iBuckets (dmt sa))%nat).
  { change (dmt sa) with (dmt s). rewrite (cons_buckets _ Hc). lia. }
  destruct (AddModule_spec sa p dm Hba Hdm)
    as (s' & l1 & l2 & Hrun & Hh & _ & Hl & Hl' & _).
  assert (Hnotin : p ∉ modules sa).
  { intros Hin. destruct (modules_live s p (cons_placed _ Hc) Hin) as [x Hx].
    by rewrite Hfresh in Hx. }
  pose proof (AddModule_consistent sa p dm s' Hca Hdm Hnotin Hrun) as Hc'.
  assert (Hmods : modules s = l1 ++ l2) by done.
  exists s'. split.
  { intros fuel. simpl. unfold mbind, M_bind, new_DebuggerModule. exact Hrun. }
  assert (Hstore' : ∀ q dq, mem s' !! q = Some dq →
                            (q, dq) ∈ inserted (ops ++ [OpInsert p dm])).
  { intros q dq Hq. rewrite inserted_snoc_insert. apply elem_of_app.
    rewrite Hh in Hq. simpl in Hq. destruct (decide (q = p)) as [->|Hne].
    - rewrite lookup_insert_eq in Hq. injection Hq as <-. right. left.
    - rewrite lookup_insert_ne in Hq by done. left. by apply Hstore. }
  assert (Hsame : ∀ m d q, q ∈ modules s →
                    is_for (mem s') m d q = is_for (mem s) m d q).
  { intros m d q Hq. unfold is_for. rewrite Hh. simpl.
    rewrite lookup_insert_ne; [done|]. intros <-. by apply Hnotin. }
  constructor; [done|done| |].
  - rewrite Hl', length_app. simpl. rewrite Hmods, !length_app in Hlen.
    rewrite length_app. simpl. lia.
  - intros m d. unfold expected. rewrite foldl_snoc. fold (expected ops m d). simpl.
    assert (Hp : is_for (mem s') m d p
                 = (m_pRuntimeModule dm =? m) && (m_pAppDomain dm =? d)).
    { unfold is_for. rewrite Hh. simpl. by rewrite lookup_insert_eq. }
    rewrite Hl'. destruct ((m_pRuntimeModule dm =? m) && (m_pAppDomain dm =? d)) eqn:E.
    + apply first_such_middle; [|done]. intros q Hq.
      assert (Hqin : q ∈ modules s) by (rewrite Hmods; apply elem_of_app; by left).
      destruct (is_for (mem s') m d q) eqn:Eq; [|done].
      destruct Hnotin. fold sa.
      rewrite <- (store_unique _ (mem s') q p m d Hpairs' Hstore'); by rewrite ?Hp.
    + rewrite first_such_skip by (by rewrite Hp).
      rewrite <- Hmods, <- Hlook. apply first_such_ext. intros q Hq. by apply Hsame.
Qed.

Lemma is_for_lookup (h h' : gmap TADDR DebuggerModule) m d (q : PTR_DebuggerModule) :
  h !! q = h' !! q → is_for h m d q = is_for h' m d q.
Proof. intros H. unfold is_for. by rewrite H. Qed.

Lemma run_inv_remove ops s m0 d0 :
  NoDup (pair_of <$> inserted ops) →
  run_inv ops s →
  ∃ s', (∀ fuel, (length (modules s) < fuel)%nat →
                 run_op fuel (OpRemoveOne m0 d0) s = Done () s') ∧
        run_inv (ops ++ [OpRemoveOne m0 d0]) s'.
Proof.
  intros Hpairs [Hc Hstore Hlen Hlook].
  destruct (RemoveModule_spec m0 d0 s Hc) as (s' & Hrun & Hm & Hh & Hc' & Hno).
  exists s'. split; [done|].
  assert (Hsub : ∀ q dq, mem s' !! q = Some dq → mem s !! q = Some dq).
  { intros q dq. rewrite Hh. unfold free_first.
    destruct (first_such _ _); [|done]. by intros [_ ?]%lookup_delete_Some. }
  assert (Hlen' : (length (modules s') ≤ length (modules s))%nat).
  { rewrite Hm. destruct (first_such (is_for (mem s) m0 d0) (modules s)) as [x|] eqn:Hx.
    - pose proof (length_remove_first _ _ _ Hx). lia.
    - by rewrite remove_first_None. }
  assert (Hkept : ∀ m d q, q ∈ modules s' →
                    is_for (mem s') m d q = is_for (mem s) m d q).
  { intros m d q Hq.
    destruct (modules_live s' q (cons_placed _ Hc') Hq) as [dq Hdq].
    apply is_for_lookup. exact (eq_trans Hdq (eq_sym (Hsub q dq Hdq))). }
  constructor; [done| | |].
  - intros q dq Hq. rewrite inserted_snoc_remove. by apply Hstore, Hsub.
  - rewrite length_app. simpl. lia.
  - intros m d. unfold expected. rewrite foldl_snoc. fold (expected ops m d). simpl.
    destruct ((m0 =? m) && (d0 =? d)) eqn:E.
    + apply andb_true_iff in E as [->%N.eqb_eq ->%N.eqb_eq].
      apply first_such_None. intros q Hq. rewrite (Hkept m d q Hq).
      rewrite Hm in Hq. revert q Hq. apply remove_first_unique; [apply Hc|].
      intros x y _ _. by apply (store_unique ops (mem s)).
    + rewrite <- Hlook.
      rewrite (first_such_ext _ (is_for (mem s) m d) (modules s')) by (intros; by apply Hkept).
      rewrite Hm.
      destruct (first_such (is_for (mem s) m0 d0) (modules s)) as [x|] eqn:Hx.
      * apply first_such_Some in Hx as (l1 & l2 & Hl & Hfx & Hl1).
        rewrite Hl, remove_first_middle by done. symmetry. apply first_such_skip.
        apply is_for_true in Hfx as (dx & Hdx & <- & <-).
        unfold is_for. rewrite Hdx. apply andb_false_iff.
        by apply andb_false_iff in E.
      * by rewrite remove_first_None.
Qed.

(** The allocator's guarantee: the address at which an insertion constructs
    its record holds no live record at that point of the run.  The address
    of a record destroyed earlier in the run may be handed out again. *)
Definition fresh_addresses (ops : list Op) : Prop :=
  ∀ ops1 p dm ops2 s1,
    ops = ops1 ++ OpInsert p dm :: ops2 →
    (∀ fuel, (length ops1 < fuel)%nat → run fuel ops1 (fresh ∅) = Done () s1) →
    mem s1 !! p = None.

(** The same, checked along a run with given fuel. *)
Fixpoint fresh_addressesb (fuel : nat) (s : State) (ops : list Op) : bool :=
  match ops with
  | [] => true
  | op :: ops' =>
      match op with
      | OpInsert p _ => bool_decide (mem s !! p = None)
      | OpRemoveOne _ _ => true
      end
      && match run_op fuel op s with
         | Done _ s' => fresh_addressesb fuel s' ops'
         | _ => false
         end
  end.

Lemma fresh_addressesb_at fuel p dm ops2 : ∀ ops1 s s1,
  fresh_addressesb fuel s (ops1 ++ OpInsert p dm :: ops2) = true →
  run fuel ops1 s = Done () s1 →
  mem s1 !! p = None.
Proof.
  induction ops1 as [|op ops1 IH]; intros s s1; simpl.
  - intros [Hp _]%andb_true_iff [= <-]. by apply bool_decide_eq_true in Hp.
  - intros [_ Hrest]%andb_true_iff. unfold mbind, M_bind.
    destruct (run_op fuel op s) as [[] s'| | |]; try done. by apply IH.
Qed.

Lemma fresh_addressesb_sound fuel ops :
  (length ops < fuel)%nat →
  fresh_addressesb fuel (fresh ∅) ops = true →
  fresh_addresses ops.
Proof.
  intros Hf Hb ops1 p dm ops2 s1 -> Hrun.
  apply (fresh_addressesb_at fuel p dm ops2 ops1 (fresh ∅) s1 Hb).
  apply Hrun. rewrite length_app in Hf. lia.
Qed.

Lemma fresh_addresses_prefix ops op :
  fresh_addresses (ops ++ [op]) → fresh_addresses ops.
Proof.
  intros H ops1 p dm ops2 s1 -> Hrun.
  apply (H ops1 p dm (ops2 ++ [op]) s1); [|done].
  by rewrite <- app_assoc.
Qed.

Lemma run_reaches_inv : ∀ ops,
  NoDup (pair_of <$> inserted ops) →
  fresh_addresses ops →
  ∃ s, (∀ fuel, (length ops < fuel)%nat → run fuel ops (fresh ∅) = Done () s) ∧
       run_inv ops s.
Proof.
  induction ops as [|op ops IH] using rev_ind; intros Hpairs Hptrs.
  - exists (fresh ∅). split; [done|]. constructor.
    + apply fresh_consistent.
    + intros p dm H. unfold fresh in H. cbn [mem] in H. by rewrite lookup_empty in H.
    + unfold modules, fresh, DebuggerModuleTable_ctor. cbn [dmt].
      by rewrite entries_ctor.
    + intros m d. unfold modules, fresh, DebuggerModuleTable_ctor. cbn [dmt].
      by rewrite entries_ctor.
  - assert (Hpairs0 : NoDup (pair_of <$> inserted ops)).
    { unfold inserted in Hpairs. rewrite omap_app, fmap_app in Hpairs.
      by apply NoDup_app in Hpairs as (? & _ & _). }
    pose proof (fresh_addresses_prefix _ _ Hptrs) as Hptrs0.
    destruct (IH Hpairs0 Hptrs0) as (s & Hrun & Hinv).
    assert (∃ s', (∀ fuel, (length (modules s) < fuel)%nat →
                           run_op fuel op s = Done () s') ∧
                  run_inv (ops ++ [op]) s') as (s' & Hop & Hinv').
    { destruct op as [p dm|m0 d0].
      - assert (Hfresh : mem s !! p = None).
        { apply (Hptrs ops p dm [] s); [done|]. intros fuel Hf. by apply Hrun. }
        destruct (run_inv_insert ops s p dm Hpairs Hfresh Hinv) as (s' & Hop & Hinv').
        exists s'. split; [|done]. intros fuel _. apply Hop.
      - by apply run_inv_remove. }
    exists s'. split; [|done]. intros fuel Hf.
    rewrite length_app in Hf. simpl in Hf.
    rewrite run_app, (bind_Done _ _ _ _ _ (Hrun fuel ltac:(lia))). simpl.
    pose proof (inv_length _ _ Hinv).
    by rewrite (bind_Done _ _ _ _ _ (Hop fuel ltac:(lia))).
Qed.

(** C1. A sequence of insertions and removals runs on a new registry; no
    two insertions are for the same (module, domain) pair, and each insertion
    constructs its record at an address that holds no live record at that
    moment (an address freed by an earlier removal may come back).  Then the
    run returns, and in the state it leaves [GetModule(module, domain)]
    returns, for every pair, what [expected] tells: the record last inserted
    for the pair when the pair was not removed since, and not-found
    otherwise. *)
Theorem lookup_after_inserts_and_removals (ops : list Op) :
  NoDup (pair_of <$> inserted ops) →
  fresh_addresses ops →
  ∃ s,
    (∀ fuel, (length ops < fuel)%nat → run fuel ops (fresh ∅) = Done () s) ∧
    (∀ fuel m d, (length ops < fuel)%nat →
       GetModule2 fuel m d s = Done (expected ops m d) s).
Proof.
  intros Hpairs Hptrs.
  destruct (run_reaches_inv ops Hpairs Hptrs) as (s & Hrun & [Hc Hstore Hlen Hlook]).
  exists s. split; [done|]. intros fuel m d Hf.
  rewrite GetModule2_spec; [by rewrite Hlook|apply Hc|lia].
Qed.

(** What [expected] tells in the two cases of the claim. *)
Lemma expected_inserted ops1 ops2 p dm :
  (∀ m d, OpRemoveOne m d ∈ ops2 →
          (m =? m_pRuntimeModule dm) && (d =? m_pAppDomain dm) = false) →
  (∀ q dq, OpInsert q dq ∈ ops2 →
           (m_pRuntimeModule dq =? m_pRuntimeModule dm)
           && (m_pAppDomain dq =? m_pAppDomain dm) = false) →
  expected (ops1 ++ OpInsert p dm :: ops2) (m_pRuntimeModule dm) (m_pAppDomain dm)
    = Some p.
Proof.
  intros Hrem Hins. unfold expected. rewrite foldl_app. simpl.
  rewrite !N.eqb_refl. simpl. clear ops1.
  induction ops2 as [|op ops2 IH] using rev_ind; [done|].
  rewrite foldl_snoc, IH.
  - destruct op as [q dq|m d]; simpl.
    + rewrite (Hins q dq); [done|]. apply elem_of_app. right. left.
    + rewrite (Hrem m d); [done|]. apply elem_of_app. right. left.
  - intros m d H. apply Hrem, elem_of_app. by left.
  - intros q dq H. apply (Hins q), elem_of_app. by left.
Qed.

Lemma expected_removed ops1 ops2 m d :
  (∀ q dq, OpInsert q dq ∈ ops2 →
           (m_pRuntimeModule dq =? m) && (m_pAppDomain dq =? d) = false) →
  expected (ops1 ++ OpRemoveOne m d :: ops2) m d = None.
Proof.
  intros Hins. unfold expected. rewrite foldl_app. simpl.
  rewrite !N.eqb_refl. simpl. clear ops1.
  induction ops2 as [|op ops2 IH] using rev_ind; [done|].
  rewrite foldl_snoc, IH.
  - destruct op as [q dq|m' d']; simpl.
    + rewrite (Hins q dq); [done|]. apply elem_of_app. right. left.
    + by destruct ((m' =? m) && (d' =? d)).
  - intros q dq H. apply (Hins q), elem_of_app. by left.
Qed.

(** Records are inserted at addresses 10 and 20, the record for (102, 7) at
    20 is removed, and a new record, for (1, 8), is constructed at the
    address 20 so freed. *)
Definition demo_ops : list Op :=
  [OpInsert 10 (mkDebuggerModule 1 7 false);
   OpInsert 20 (mkDebuggerModule 102 7 false);
   OpRemoveOne 102 7;
   OpInsert 20 (mkDebuggerModule 1 8 true)].

Lemma lookup_after_inserts_and_removals_witness :
  NoDup (pair_of <$> inserted demo_ops) ∧
  fresh_addresses demo_ops ∧
  expected demo_ops 1 7 = Some 10 ∧
  expected demo_ops 102 7 = None ∧
  expected demo_ops 1 8 = Some 20 ∧
  ∃ s,
    (∀ fuel, (length demo_ops < fuel)%nat → run fuel demo_ops (fresh ∅) = Done () s) ∧
    (∀ fuel m d, (length demo_ops < fuel)%nat →
       GetModule2 fuel m d s = Done (expected demo_ops m d) s).
Proof.
  assert (H1 : NoDup (pair_of <$> inserted demo_ops)).
  { vm_compute. repeat (apply NoDup_cons; split; [set_solver|]). apply NoDup_nil_2. }
  assert (H2 : fresh_addresses demo_ops).
  { apply (fresh_addressesb_sound 5); [vm_compute; lia|vm_compute; reflexivity]. }
  split; [exact H1|]. split; [exact H2|].
  split; [reflexivity|]. split; [reflexivity|]. split; [reflexivity|].
  exact (lookup_after_inserts_and_removals demo_ops H1 H2).
Defined.

(** The same address serves two records in turn: after the sequence above
    the lookup of (1, 8) returns the address 20, and that of (102, 7), whose
    record lived there before, returns not-found. *)
Example address_reuse :
  ∃ s, run 5 demo_ops (fresh ∅) = Done () s ∧
       GetModule2 5 1 8 s = Done (Some 20) s ∧
       GetModule2 5 102 7 s = Done None s ∧
       mem s !! 20 = Some (mkDebuggerModule 1 8 true).
Proof.
  destruct (run 5 demo_ops (fresh ∅)) as [[] s| | |] eqn:E; try (vm_compute in E; discriminate).
  exists s. split; [done|]. vm_compute in E. injection E as <-.
  vm_compute. split_and!; reflexivity.
Qed.

(** * Further properties of the code *)

(** ** Iteration with GetFirstModule and GetNextModule *)

(** The client loop
    [for (pDM = GetFirstModule(&hf); pDM != NULL; pDM = GetNextModule(&hf))],
    collecting the records it visits. *)
Fixpoint enumerate_loop (fuel : nat) (pDM : option PTR_DebuggerModule)
    (hf : HASHFIND) : M (list PTR_DebuggerModule) :=
  match fuel with
  | O => out_of_fuel
  | S fuel' =>
      match pDM with
      | None => mret []
      | Some p =>
          '(next, hf') ← GetNextModule hf;
          rest ← enumerate_loop fuel' next hf';
          mret (p :: rest)
      end
  end.

Definition enumerate (fuel : nat) : M (list PTR_DebuggerModule) :=
  '(first, hf) ← GetFirstModule;
  enumerate_loop fuel first hf.

(** A record pointer and its cursor stand before the entries [r]. *)
Definition module_at_cursor (t : CHashTableAndData) (pDM : option PTR_DebuggerModule)
    (hf : HASHFIND) (r : list (PTR_HASHENTRY * DebuggerModuleEntry)) : Prop :=
  match r with
  | [] => pDM = None
  | pe :: r' => pDM = Some (CHashTable.module pe.2) ∧ cursor_rest t hf = r'
  end.

Lemma GetNextModule_at s hf pre r :
  indexed (dmt s) = pre ++ r →
  cursor_rest (dmt s) hf = r →
  ∃ o hf', GetNextModule hf s = Done (o, hf') s ∧ module_at_cursor (dmt s) o hf' r.
Proof.
  intros Hix Hr. unfold GetNextModule, mbind, M_bind, FindNextEntry_.
  pose proof (FindNextEntry_at (dmt s) hf) as Hat. rewrite Hr in Hat.
  destruct (FindNextEntry (dmt s) hf) as [o hf']. simpl in Hat.
  destruct r as [|[p e] r]; simpl in *.
  - subst o. by exists None, hf'.
  - destruct Hat as [-> Hrest].
    rewrite (entry_module_Done _ _ _ (indexed_EntryPtr _ _ _ _ _ Hix)).
    by exists (Some (CHashTable.module e)), hf'.
Qed.

Lemma GetFirstModule_at s :
  ∃ o hf, GetFirstModule s = Done (o, hf) s ∧ module_at_cursor (dmt s) o hf (indexed (dmt s)).
Proof.
  destruct (GetNextModule_at s (mkHASHFIND 0 0) [] (indexed (dmt s)) eq_refl
              (cursor_rest_start _)) as (o & hf & Hrun & Hat).
  by exists o, hf.
Qed.

Lemma enumerate_loop_spec s : ∀ r fuel pDM hf pre,
  indexed (dmt s) = pre ++ r →
  module_at_cursor (dmt s) pDM hf r →
  (length r < fuel)%nat →
  enumerate_loop fuel pDM hf s = Done (CHashTable.module <$> r.*2) s.
Proof.
  induction r as [|[p e] r IH]; intros fuel pDM hf pre Hix Hat Hf;
    destruct fuel as [|fuel]; try (simpl in Hf; lia); simpl in Hat.
  - by subst pDM.
  - destruct Hat as [-> Hrest]. simpl.
    destruct (GetNextModule_at s hf (pre ++ [(p, e)]) r) as (o & hf' & Hrun & Hat');
      [by rewrite <- app_assoc|done|].
    rewrite (bind_Done _ _ _ _ _ Hrun).
    rewrite (bind_Done _ _ _ _ _
               (IH fuel o hf' (pre ++ [(p, e)]) ltac:(by rewrite <- app_assoc) Hat'
                   ltac:(simpl in Hf; lia))).
    done.
Qed.

(** X1. The iteration visits the records of the table, each entry once, in
    the order of the chains, and leaves the state as it is; it needs no
    more steps than there are entries.  This holds for every table, placed or
    not: the iteration never reads a record. *)
Theorem enumerate_visits_every_entry_once (s : State) (fuel : nat) :
  (length (modules s) < fuel)%nat →
  enumerate fuel s = Done (modules s) s.
Proof.
  intros Hf. unfold enumerate.
  destruct (GetFirstModule_at s) as (o & hf & Hrun & Hat).
  rewrite (bind_Done _ _ _ _ _ Hrun). unfold modules. rewrite <- indexed_snd.
  apply (enumerate_loop_spec s _ fuel o hf []); [done|done|].
  unfold modules in Hf. by rewrite length_fmap, <- length_indexed in Hf.
Qed.

Lemma enumerate_visits_every_entry_once_witness :
  (length (modules three_modules) < 4)%nat ∧
  enumerate 4 three_modules = Done [30; 20; 10] three_modules.
Proof.
  split; [vm_compute; lia|].
  exact (enumerate_visits_every_entry_once three_modules 4 ltac:(vm_compute; lia)).
Defined.

Lemma FindNextEntry_from_end chains : ∀ b i hf,
  FindNextEntry_from chains b i = (None, hf) →
  (b + length chains ≤ iBucket hf)%nat.
Proof.
  induction chains as [|c rest IH]; intros b i hf; simpl.
  - intros [= <-]. simpl. lia.
  - case_decide; [done|]. intros Hend. apply IH in Hend. lia.
Qed.

(** X2. The end of the iteration is stable: once [GetNextModule] has
    returned NULL, calling it again with the cursor it left returns NULL
    again and leaves the cursor where it is. *)
Theorem GetNextModule_end_is_stable (s s' : State) (info info' : HASHFIND) :
  GetNextModule info s = Done (None, info') s' →
  GetNextModule info' s = Done (None, info') s.
Proof.
  unfold GetNextModule, mbind, M_bind, FindNextEntry_.
  destruct (FindNextEntry (dmt s) info) as [[e|] hf] eqn:E.
  - destruct (FindNextEntry_from_valid (dmt s) _ _ _ _ _ eq_refl E) as [en Hen].
    by rewrite (entry_module_Done _ _ _ Hen).
  - intros [= -> _]. unfold FindNextEntry in *.
    apply FindNextEntry_from_end in E. rewrite length_drop in E.
    rewrite drop_ge by lia. simpl. by destruct info'.
Qed.

Lemma GetNextModule_end_is_stable_witness :
  GetNextModule (mkHASHFIND 1 3) three_modules
    = Done (None, mkHASHFIND 101 0) three_modules ∧
  GetNextModule (mkHASHFIND 101 0) three_modules
    = Done (None, mkHASHFIND 101 0) three_modules.
Proof.
  assert (H : GetNextModule (mkHASHFIND 1 3) three_modules
              = Done (None, mkHASHFIND 101 0) three_modules) by (vm_compute; reflexivity).
  split; [exact H|].
  exact (GetNextModule_end_is_stable three_modules three_modules _ _ H).
Defined.

(** ** Insertion followed by the lookups *)

Lemma is_for_false_of_module h m d p : of_module h m p = false → is_for h m d p = false.
Proof.
  intros H. destruct (is_for h m d p) eqn:E; [|done].
  apply is_for_of_module in E. congruence.
Qed.

Lemma is_for_other_pair h m d p dm :
  h !! p = Some dm → (m ≠ m_pRuntimeModule dm ∨ d ≠ m_pAppDomain dm) →
  is_for h m d p = false.
Proof.
  intros Hdm Hne. unfold is_for. rewrite Hdm. apply andb_false_iff.
  destruct Hne as [Hne|Hne]; [left|right]; apply N.eqb_neq; congruence.
Qed.

(** X3. [AddModule] of a live record that is not yet entered, on a
    consistent registry: the registry stays consistent; both lookups for the
    record's module, with and without its domain, now return the record just
    added, whatever was entered before; and the lookup of every other
    (module, domain) pair returns what it returned before. *)
Theorem AddModule_then_lookup (s : State) (p : PTR_DebuggerModule)
    (dm : DebuggerModule) :
  consistent s →
  mem s !! p = Some dm →
  p ∉ modules s →
  ∃ s',
    AddModule true p s = Done () s' ∧
    consistent s' ∧
    GetModule (m_pRuntimeModule dm) s' = Done (Some p) s' ∧
    ∀ fuel, (S (length (modules s)) < fuel)%nat →
      GetModule2 fuel (m_pRuntimeModule dm) (m_pAppDomain dm) s' = Done (Some p) s' ∧
      ∀ m d, (m ≠ m_pRuntimeModule dm ∨ d ≠ m_pAppDomain dm) →
        ∃ r, GetModule2 fuel m d s = Done r s ∧ GetModule2 fuel m d s' = Done r s'.
Proof.
  intros Hc Hdm Hnotin.
  destruct (AddModule_spec s p dm ltac:(rewrite (cons_buckets _ Hc); lia) Hdm)
    as (s' & l1 & l2 & Hrun & Hh & _ & Hl & Hl' & _ & Hbefore).
  pose proof (AddModule_consistent s p dm s' Hc Hdm Hnotin Hrun) as Hc'.
  specialize (Hbefore (cons_placed _ Hc)).
  assert (Hlen : length (modules s') = S (length (modules s))).
  { rewrite Hl, Hl', !length_app. simpl. lia. }
  exists s'. split_and!; try done.
  - rewrite GetModule_spec; [|apply Hc'|rewrite (cons_buckets _ Hc'); lia].
    f_equal. rewrite Hh, Hl'. apply first_such_middle; [done|].
    unfold of_module. rewrite Hdm. apply N.eqb_refl.
  - intros fuel Hf. split.
    + rewrite GetModule2_spec; [|apply Hc'|lia].
      f_equal. rewrite Hh, Hl'. apply first_such_middle.
      * intros q Hq. by apply is_for_false_of_module, Hbefore.
      * apply is_for_true. eauto.
    + intros m d Hne. eexists. split.
      * apply GetModule2_spec; [apply Hc|lia].
      * rewrite GetModule2_spec; [|apply Hc'|lia]. f_equal.
        rewrite Hh, Hl', Hl. apply first_such_skip. by apply (is_for_other_pair _ _ _ _ dm).
Qed.

Lemma AddModule_then_lookup_witness :
  let s := mkState (<[40 := mkDebuggerModule 1 7 false]> three_records)
                   (dmt three_modules) in
  consistent s ∧ mem s !! 40 = Some (mkDebuggerModule 1 7 false) ∧ (40 ∉ modules s) ∧
  ∃ s',
    AddModule true 40 s = Done () s' ∧
    consistent s' ∧
    GetModule 1 s' = Done (Some 40) s' ∧
    ∀ fuel, (S (length (modules s)) < fuel)%nat →
      GetModule2 fuel 1 7 s' = Done (Some 40) s' ∧
      ∀ m d, (m ≠ 1 ∨ d ≠ 7) →
        ∃ r, GetModule2 fuel m d s = Done r s ∧ GetModule2 fuel m d s' = Done r s'.
Proof.
  intros s.
  assert (Hc : consistent s) by (apply consistentb_sound; vm_compute; reflexivity).
  assert (Hn : 40 ∉ modules s).
  { vm_compute. intros H. repeat (apply elem_of_cons in H as [H|H]; [discriminate|]).
    by apply elem_of_nil in H. }
  split; [exact Hc|]. split; [reflexivity|]. split; [exact Hn|].
  exact (AddModule_then_lookup s 40 (mkDebuggerModule 1 7 false) Hc eq_refl Hn).
Defined.

(** ** Removal followed by the lookups *)

Lemma lookup_after_remove_first (f : PTR_DebuggerModule → bool)
    (l : list PTR_DebuggerModule) (h : gmap TADDR DebuggerModule) q :
  NoDup l → q ∈ remove_first f l → free_first f l h !! q = h !! q.
Proof.
  intros Hn Hq. unfold free_first. destruct (first_such f l) as [x|] eqn:Hx; [|done].
  apply first_such_Some in Hx as (l1 & l2 & -> & Hfx & Hl1).
  rewrite remove_first_middle in Hq by done.
  apply NoDup_app in Hn as (_ & Hn12 & Hn2). apply NoDup_cons in Hn2 as [Hn2 _].
  apply lookup_delete_ne. intros <-.
  apply elem_of_app in Hq as [Hq|Hq]; [|done]. apply (Hn12 _ Hq). left.
Qed.

(** X4. [RemoveModule(module, domain)] on a consistent registry, and the
    lookups after it.  Only the first entry for the pair is taken out: the
    table is left without the first of its records for the pair, and that
    record alone leaves the store.  When at most one record was entered for
    the pair, the lookup of the pair returns not-found afterwards, which is
    what the assertion that ends the removal checks.  When two different
    records were entered for the pair, the lookup still finds a record for
    the pair.  In both cases the lookup of any other pair returns what it
    returned before. *)
Theorem RemoveModule_then_lookup (m : PTR_Module) (d : PTR_AppDomain) (s : State) :
  consistent s →
  ∃ s',
    (∀ fuel, (length (modules s) < fuel)%nat → RemoveModule fuel m d s = Done () s') ∧
    consistent s' ∧
    modules s' = remove_first (is_for (mem s) m d) (modules s) ∧
    mem s' = free_first (is_for (mem s) m d) (modules s) (mem s) ∧
    ((∀ x y, x ∈ modules s → y ∈ modules s →
             is_for (mem s) m d x = true → is_for (mem s) m d y = true → x = y) →
     ∀ fuel, (length (modules s) < fuel)%nat → GetModule2 fuel m d s' = Done None s') ∧
    (∀ x y, x ∈ modules s → y ∈ modules s → x ≠ y →
            is_for (mem s) m d x = true → is_for (mem s) m d y = true →
     ∀ fuel, (length (modules s) < fuel)%nat →
       ∃ q, GetModule2 fuel m d s' = Done (Some q) s' ∧ q ∈ modules s ∧
            is_for (mem s') m d q = true) ∧
    (∀ fuel m' d', (length (modules s) < fuel)%nat → (m' ≠ m ∨ d' ≠ d) →
       ∃ r, GetModule2 fuel m' d' s = Done r s ∧ GetModule2 fuel m' d' s' = Done r s').
Proof.
  intros Hc.
  destruct (RemoveModule_spec m d s Hc) as (s' & Hrun & Hm & Hh & Hc' & Hno).
  assert (Hlen' : (length (modules s') ≤ length (modules s))%nat).
  { rewrite Hm. destruct (first_such (is_for (mem s) m d) (modules s)) as [x|] eqn:Hx.
    - pose proof (length_remove_first _ _ _ Hx). lia.
    - by rewrite remove_first_None. }
  assert (Hkept : ∀ m1 d1 q, q ∈ modules s' →
                    is_for (mem s') m1 d1 q = is_for (mem s) m1 d1 q).
  { intros m1 d1 q Hq. apply is_for_lookup. rewrite Hh. rewrite Hm in Hq.
    apply lookup_after_remove_first; [apply Hc|done]. }
  exists s'. split_and!; try done.
  - intros Hu fuel Hf. rewrite GetModule2_spec; [|apply Hc'|lia]. f_equal.
    apply first_such_None. intros q Hq. rewrite (Hkept m d q Hq).
    rewrite Hm in Hq. revert q Hq. apply remove_first_unique; [apply Hc|].
    intros x y Hx Hy. by apply Hu.
  - intros x y Hx Hy Hne Hfx Hfy fuel Hf.
    rewrite GetModule2_spec; [|apply Hc'|lia].
    destruct (first_such (is_for (mem s) m d) (modules s)) as [x0|] eqn:Hx0.
    2: { rewrite first_such_None in Hx0. rewrite (Hx0 x Hx) in Hfx. done. }
    apply first_such_Some in Hx0 as (l1 & l2 & Hl & Hfx0 & Hl1).
    assert (∃ z, z ∈ modules s' ∧ is_for (mem s) m d z = true) as (z & Hz & Hfz).
    { rewrite Hm, Hl, remove_first_middle by done. rewrite Hl in Hx, Hy.
      destruct (decide (x = x0)) as [->|Hxx].
      - exists y. split; [|done].
        apply elem_of_app in Hy as [Hy|Hy]; apply elem_of_app; [by left|].
        apply elem_of_cons in Hy as [Hy|Hy]; [congruence|by right].
      - exists x. split; [|done].
        apply elem_of_app in Hx as [Hx|Hx]; apply elem_of_app; [by left|].
        apply elem_of_cons in Hx as [Hx|Hx]; [congruence|by right]. }
    destruct (first_such (is_for (mem s') m d) (modules s')) as [q|] eqn:Hq.
    + exists q. apply first_such_elem in Hq as [Hq Hfq]. split_and!; try done.
      rewrite Hm in Hq. by apply remove_first_subseteq in Hq.
    + rewrite first_such_None in Hq. rewrite <- (Hkept m d z Hz), (Hq z Hz) in Hfz. done.
  - intros fuel m' d' Hf Hne. eexists. split.
    + apply GetModule2_spec; [apply Hc|lia].
    + rewrite GetModule2_spec; [|apply Hc'|lia]. f_equal.
      rewrite (first_such_ext _ (is_for (mem s) m' d') (modules s'))
        by (intros; by apply Hkept).
      rewrite Hm.
      destruct (first_such (is_for (mem s) m d) (modules s)) as [x|] eqn:Hx.
      * apply first_such_Some in Hx as (l1 & l2 & Hl & Hfx & Hl1).
        rewrite Hl, remove_first_middle by done. symmetry. apply first_such_skip.
        apply is_for_true in Hfx as (dx & Hdx & <- & <-).
        by apply (is_for_other_pair _ _ _ _ dx).
      * by rewrite remove_first_None.
Qed.

(** Four records, two of them for module [1] in domain [7]. *)
Definition four_modules : State :=
  mkState (<[40 := mkDebuggerModule 1 7 false]> three_records)
    (mkTable (<[1%nat := [mkEntry 40; mkEntry 30; mkEntry 20; mkEntry 10]]>
                (replicate 101 []))).

Lemma four_modules_consistent : consistent four_modules.
Proof. apply consistentb_sound. vm_compute. reflexivity. Defined.

Lemma RemoveModule_then_lookup_witness :
  consistent four_modules ∧
  ∃ s',
    (∀ fuel, (length (modules four_modules) < fuel)%nat →
             RemoveModule fuel 1 7 four_modules = Done () s') ∧
    modules s' = [30; 20; 10] ∧
    mem s' = delete 40 (mem four_modules) ∧
    (10 ∈ modules four_modules ∧ 40 ∈ modules four_modules ∧ 10 ≠ 40 ∧
     is_for (mem four_modules) 1 7 10 = true ∧
     is_for (mem four_modules) 1 7 40 = true ∧
     ∀ fuel, (length (modules four_modules) < fuel)%nat →
       ∃ q, GetModule2 fuel 1 7 s' = Done (Some q) s' ∧ q ∈ modules four_modules ∧
            is_for (mem s') 1 7 q = true) ∧
    (∀ fuel m' d', (length (modules four_modules) < fuel)%nat → (m' ≠ 1 ∨ d' ≠ 7) →
       ∃ r, GetModule2 fuel m' d' four_modules = Done r four_modules ∧
            GetModule2 fuel m' d' s' = Done r s').
Proof.
  split; [exact four_modules_consistent|].
  destruct (RemoveModule_then_lookup 1 7 four_modules four_modules_consistent)
    as (s' & Hrun & _ & Hm & Hh & _ & Hdup & Hframe).
  exists s'. split; [exact Hrun|]. split; [exact Hm|]. split; [exact Hh|].
  split; [|exact Hframe].
  assert (H10 : 10 ∈ modules four_modules) by (vm_compute; set_solver).
  assert (H40 : 40 ∈ modules four_modules) by (vm_compute; set_solver).
  split; [exact H10|]. split; [exact H40|]. split; [discriminate|].
  split; [reflexivity|]. split; [reflexivity|].
  exact (Hdup 10 40 H10 H40 ltac:(discriminate) eq_refl eq_refl).
Defined.

(** ** Bulk removal followed by the lookups *)

Lemma first_such_keep {A} (g h : A → bool) (l : list A) :
  (∀ x, x ∈ l → g x = true → h x = true) →
  first_such g (keep h l) = first_such g l.
Proof.
  induction l as [|x l IH]; intros H; simpl; [done|].
  assert (IH' : first_such g (keep h l) = first_such g l).
  { apply IH. intros y Hy. apply H. by right. }
  destruct (h x) eqn:Eh; simpl.
  - by rewrite IH'.
  - destruct (g x) eqn:Eg; [|done].
    rewrite (H x) in Eh; [done|left|done].
Qed.

(** X5. After [RemoveModules(D)] on a consistent registry no lookup finds a
    record in domain [D], whatever the module, and the lookup of a module in
    any other domain returns what it returned before. *)
Theorem RemoveModules_then_lookup (D : PTR_AppDomain) (s : State) :
  consistent s →
  ∃ s',
    (∀ fuel, ((length (modules s) + 1) * (length (modules s) + 1) ≤ fuel)%nat →
             RemoveModules fuel D s = Done () s') ∧
    (∀ fuel m, (length (modules s) < fuel)%nat → GetModule2 fuel m D s' = Done None s') ∧
    (∀ fuel m d, (length (modules s) < fuel)%nat → d ≠ D →
       ∃ r, GetModule2 fuel m d s = Done r s ∧ GetModule2 fuel m d s' = Done r s').
Proof.
  intros Hc.
  destruct (RemoveModules_spec D s Hc) as (s' & Hrun & Hm & Hh & Hc' & _).
  assert (Hlen' : (length (modules s') ≤ length (modules s))%nat).
  { rewrite Hm. pose proof (length_keep_negb (in_domain (mem s) D) (modules s)). lia. }
  assert (Hkept : ∀ m d q, q ∈ modules s' →
                    is_for (mem s') m d q = is_for (mem s) m d q).
  { intros m d q Hq. apply is_for_lookup. rewrite Hh. rewrite Hm in Hq.
    by apply in_domain_after_RemoveModules. }
  exists s'. split_and!; [done| |].
  - intros fuel m Hf. rewrite GetModule2_spec; [|apply Hc'|lia]. f_equal.
    apply first_such_None. intros q Hq. rewrite (Hkept m D q Hq).
    rewrite Hm in Hq. apply elem_of_keep in Hq as [_ Hq].
    destruct (is_for (mem s) m D q) eqn:E; [|done].
    apply is_for_in_domain in E. by rewrite E in Hq.
  - intros fuel m d Hf Hne. eexists. split.
    + apply GetModule2_spec; [apply Hc|lia].
    + rewrite GetModule2_spec; [|apply Hc'|lia]. f_equal.
      rewrite (first_such_ext _ (is_for (mem s) m d) (modules s'))
        by (intros; by apply Hkept).
      rewrite Hm. apply first_such_keep.
      intros x _ (dx & Hdx & _ & Hd)%is_for_true.
      unfold in_domain. rewrite Hdx. apply negb_true_iff, N.eqb_neq. congruence.
Qed.

Lemma RemoveModules_then_lookup_witness :
  consistent three_modules ∧
  ∃ s',
    (∀ fuel, ((length (modules three_modules) + 1)
              * (length (modules three_modules) + 1) ≤ fuel)%nat →
             RemoveModules fuel 7 three_modules = Done () s') ∧
    (∀ fuel m, (length (modules three_modules) < fuel)%nat →
               GetModule2 fuel m 7 s' = Done None s') ∧
    (∀ fuel m d, (length (modules three_modules) < fuel)%nat → d ≠ 7 →
       ∃ r, GetModule2 fuel m d three_modules = Done r three_modules ∧
            GetModule2 fuel m d s' = Done r s').
Proof.
  split; [exact three_modules_consistent|].
  exact (RemoveModules_then_lookup 7 three_modules three_modules_consistent).
Defined.

(** ** The two lookups agree *)

(** X6. On a consistent registry the lookup by module alone and the lookup
    by module and domain agree: [GetModule(m)] returns not-found exactly when
    [GetModule(m, d)] returns not-found for every domain [d]; and when
    [GetModule(m)] returns a record, [GetModule(m, d)] with that record's
    domain returns the same record. *)
Theorem GetModule_agrees_with_GetModule2 (m : PTR_Module) (s : State) (fuel : nat) :
  consistent s →
  (length (modules s) < fuel)%nat →
  (GetModule m s = Done None s ↔ ∀ d, GetModule2 fuel m d s = Done None s) ∧
  (∀ q, GetModule m s = Done (Some q) s →
     ∃ dm, mem s !! q = Some dm ∧ m_pRuntimeModule dm = m ∧
           GetModule2 fuel m (m_pAppDomain dm) s = Done (Some q) s).
Proof.
  intros Hc Hf.
  assert (Hb : (0 < m_iBuckets (dmt s))%nat) by (rewrite (cons_buckets _ Hc); lia).
  rewrite (GetModule_spec m s (cons_placed _ Hc) Hb).
  assert (Hsome : ∀ q, first_such (of_module (mem s) m) (modules s) = Some q →
            ∃ dm, mem s !! q = Some dm ∧ m_pRuntimeModule dm = m ∧
                  first_such (is_for (mem s) m (m_pAppDomain dm)) (modules s) = Some q).
  { intros q (l1 & l2 & Hl & Hq & Hl1)%first_such_Some.
    unfold of_module in Hq. destruct (mem s !! q) as [dm|] eqn:Hdm; [|done].
    apply N.eqb_eq in Hq. exists dm. split_and!; try done.
    rewrite Hl. apply first_such_middle.
    - intros y Hy. by apply is_for_false_of_module, Hl1.
    - apply is_for_true. eauto. }
  split.
  - split.
    + intros [= Hnone] d. rewrite GetModule2_spec; [|apply Hc|done]. f_equal.
      rewrite first_such_None in Hnone. apply first_such_None.
      intros x Hx. by apply is_for_false_of_module, Hnone.
    + intros Hall. f_equal.
      destruct (first_such (of_module (mem s) m) (modules s)) as [q|] eqn:Hq; [|done].
      destruct (Hsome q eq_refl) as (dm & _ & _ & Hfs).
      specialize (Hall (m_pAppDomain dm)).
      rewrite GetModule2_spec in Hall; [|apply Hc|done].
      injection Hall as Hall. congruence.
  - intros q [= Hq]. destruct (Hsome q Hq) as (dm & Hdm & Hrt & Hfs).
    exists dm. split_and!; try done.
    rewrite GetModule2_spec; [by rewrite Hfs|apply Hc|done].
Qed.

Lemma GetModule_agrees_with_GetModule2_witness :
  consistent three_modules ∧ (length (modules three_modules) < 4)%nat ∧
  (GetModule 203 three_modules = Done None three_modules ↔
   ∀ d, GetModule2 4 203 d three_modules = Done None three_modules) ∧
  (∀ q, GetModule 1 three_modules = Done (Some q) three_modules →
     ∃ dm, mem three_modules !! q = Some dm ∧ m_pRuntimeModule dm = 1 ∧
           GetModule2 4 1 (m_pAppDomain dm) three_modules = Done (Some q) three_modules).
Proof.
  assert (Hf : (length (modules three_modules) < 4)%nat) by (vm_compute; lia).
  split; [exact three_modules_consistent|]. split; [exact Hf|]. split.
  - exact (proj1 (GetModule_agrees_with_GetModule2 203 three_modules 4
                    three_modules_consistent Hf)).
  - exact (proj2 (GetModule_agrees_with_GetModule2 1 three_modules 4
                    three_modules_consistent Hf)).
Defined.

(** ** The flag and the lookups *)

(** X7. [SetCanChangeJitFlags] on a record of a consistent registry keeps
    the registry consistent and is invisible to the table: the table points
    to the same records, and both lookups return, for every module and
    domain, what they returned before.  A second write to the same record
    overrides the first. *)
Theorem SetCanChangeJitFlags_keeps_lookups (s : State) (this : PTR_DebuggerModule)
    (dm : DebuggerModule) (b : bool) :
  consistent s →
  mem s !! this = Some dm →
  ∃ s',
    SetCanChangeJitFlags this b s = Done () s' ∧
    consistent s' ∧
    modules s' = modules s ∧
    (∀ m, ∃ r, GetModule m s = Done r s ∧ GetModule m s' = Done r s') ∧
    (∀ fuel m d, (length (modules s) < fuel)%nat →
       ∃ r, GetModule2 fuel m d s = Done r s ∧ GetModule2 fuel m d s' = Done r s') ∧
    (∀ b', (SetCanChangeJitFlags this b ≫= λ _, SetCanChangeJitFlags this b') s
           = SetCanChangeJitFlags this b' s).
Proof.
  intros Hc Hdm.
  set (s' := mkState (<[this := mkDebuggerModule (m_pRuntimeModule dm) (m_pAppDomain dm) b]>
                        (mem s)) (dmt s)).
  assert (Hrun : SetCanChangeJitFlags this b s = Done () s').
  { unfold SetCanChangeJitFlags. by rewrite Hdm. }
  pose proof (SetCanChangeJitFlags_consistent this b s s' Hc Hrun) as Hc'.
  assert (Hfor : ∀ m d q, is_for (mem s') m d q = is_for (mem s) m d q).
  { intros m d q. unfold is_for, s'. simpl. destruct (decide (this = q)) as [<-|Hne].
    - by rewrite lookup_insert_eq, Hdm.
    - by rewrite lookup_insert_ne. }
  assert (Hof : ∀ m q, of_module (mem s') m q = of_module (mem s) m q).
  { intros m q. unfold of_module, s'. simpl. destruct (decide (this = q)) as [<-|Hne].
    - by rewrite lookup_insert_eq, Hdm.
    - by rewrite lookup_insert_ne. }
  exists s'. split_and!; try done.
  - intros m. eexists. split.
    + apply GetModule_spec; [apply Hc|rewrite (cons_buckets _ Hc); lia].
    + rewrite GetModule_spec; [|apply Hc'|rewrite (cons_buckets _ Hc'); lia].
      f_equal. apply first_such_ext. intros q _. apply Hof.
  - intros fuel m d Hf. eexists. split.
    + apply GetModule2_spec; [apply Hc|done].
    + rewrite GetModule2_spec; [|apply Hc'|done].
      f_equal. apply first_such_ext. intros q _. apply Hfor.
  - intros b'. rewrite (bind_Done _ _ _ _ _ Hrun).
    unfold SetCanChangeJitFlags, s'. simpl. rewrite lookup_insert_eq, Hdm. simpl.
    by rewrite insert_insert_eq.
Qed.

Lemma SetCanChangeJitFlags_keeps_lookups_witness :
  consistent three_modules ∧
  mem three_modules !! 10 = Some (mkDebuggerModule 1 7 false) ∧
  ∃ s',
    SetCanChangeJitFlags 10 true three_modules = Done () s' ∧
    consistent s' ∧
    modules s' = modules three_modules ∧
    (∀ m, ∃ r, GetModule m three_modules = Done r three_modules ∧
               GetModule m s' = Done r s') ∧
    (∀ fuel m d, (length (modules three_modules) < fuel)%nat →
       ∃ r, GetModule2 fuel m d three_modules = Done r three_modules ∧
            GetModule2 fuel m d s' = Done r s') ∧
    (∀ b', (SetCanChangeJitFlags 10 true ≫= λ _, SetCanChangeJitFlags 10 b') three_modules
           = SetCanChangeJitFlags 10 b' three_modules).
Proof.
  split; [exact three_modules_consistent|]. split; [reflexivity|].
  exact (SetCanChangeJitFlags_keeps_lookups three_modules 10
           (mkDebuggerModule 1 7 false) true three_modules_consistent eq_refl).
Defined.

(** ** Every member function keeps the registry consistent *)

(** What the caller owes: the record handed to [AddModule] is live and not
    yet entered. *)
Definition call_pre (s : State) (c : Call) : Prop :=
  match c with
  | Call_AddModule _ pModule => is_Some (mem s !! pModule) ∧ pModule ∉ modules s
  | _ => True
  end.

(** X8. On a consistent registry, with fuel for (n+1)² iterations, n the
    number of entries, every member function comes back, normally or (for
    [AddModule]) with out-of-memory: none reads a destroyed record, none runs
    on for ever; and the registry it leaves is consistent again. *)
Theorem member_functions_keep_consistency (fuel : nat) (c : Call) (s : State) :
  consistent s →
  call_pre s c →
  ((length (modules s) + 1) * (length (modules s) + 1) ≤ fuel)%nat →
  ∃ s', state_of (body fuel c s) = Some s' ∧ consistent s'.
Proof.
  intros Hc Hpre Hf.
  assert (Hf1 : (length (modules s) < fuel)%nat) by nia.
  destruct c as [d| |fAlloc p|m d|m|m d| |info]; simpl.
  - destruct (RemoveModules_spec d s Hc) as (s' & Hrun & _ & _ & Hc' & _).
    exists s'. by rewrite (bind_Done _ _ _ _ _ (Hrun fuel Hf)).
  - eexists. rewrite (bind_Done _ _ _ _ _ (Clear_spec fuel s Hc Hf1)). simpl.
    split; [done|]. rewrite (cons_buckets _ Hc). apply fresh_consistent.
  - destruct Hpre as [[dm Hdm] Hnotin]. destruct fAlloc.
    + destruct (AddModule_spec s p dm ltac:(rewrite (cons_buckets _ Hc); lia) Hdm)
        as (s' & l1 & l2 & Hrun & _).
      exists s'. rewrite (bind_Done _ _ _ _ _ Hrun). split; [done|].
      by apply (AddModule_consistent s p dm).
    + exists s. unfold mbind, M_bind. by rewrite (AddModule_fail s p dm Hdm).
  - destruct (RemoveModule_spec m d s Hc) as (s' & Hrun & _ & _ & Hc' & _).
    exists s'. by rewrite (bind_Done _ _ _ _ _ (Hrun fuel Hf1)).
  - exists s. rewrite (bind_Done _ _ _ _ _
                (GetModule_spec m s (cons_placed _ Hc)
                   ltac:(rewrite (cons_buckets _ Hc); lia))). done.
  - exists s. by rewrite (bind_Done _ _ _ _ _
                            (GetModule2_spec fuel m d s (cons_placed _ Hc) Hf1)).
  - exists s. destruct (GetFirstModule_Done s) as [[r info] Hr].
    by rewrite (bind_Done _ _ _ _ _ Hr).
  - exists s. destruct (GetNextModule_Done info s) as [[r info'] Hr].
    by rewrite (bind_Done _ _ _ _ _ Hr).
Qed.

Lemma member_functions_keep_consistency_witness :
  consistent three_modules ∧
  call_pre three_modules (Call_RemoveModules 7) ∧
  ((length (modules three_modules) + 1) * (length (modules three_modules) + 1) ≤ 16)%nat ∧
  ∃ s', state_of (body 16 (Call_RemoveModules 7) three_modules) = Some s' ∧ consistent s'.
Proof.
  assert (Hf : ((length (modules three_modules) + 1)
                * (length (modules three_modules) + 1) ≤ 16)%nat) by (vm_compute; lia).
  split; [exact three_modules_consistent|]. split; [exact I|]. split; [exact Hf|].
  exact (member_functions_keep_consistency 16 (Call_RemoveModules 7) three_modules
           three_modules_consistent I Hf).
Defined.

(** ** The destructor *)

(** [DebuggerModuleTable::~DebuggerModuleTable]: [Clear()]. *)
Definition DebuggerModuleTable_dtor (fuel : nat) : M () := Clear fuel.

(** X9. The destructor of a consistent registry destroys the records the
    table points to, and only those: every record of the table leaves the
    store, every other record of the store stays as it is. *)
Theorem destructor_destroys_exactly_the_records (s : State) :
  consistent s →
  ∃ s',
    (∀ fuel, (length (modules s) < fuel)%nat →
             DebuggerModuleTable_dtor fuel s = Done () s') ∧
    (∀ p, p ∈ modules s → is_Some (mem s !! p) ∧ mem s' !! p = None) ∧
    (∀ q, q ∉ modules s → mem s' !! q = mem s !! q).
Proof.
  intros Hc.
  exists (mkState (free_all (modules s) (mem s))
                  (CHashTableAndData_ctor (m_iBuckets (dmt s)))).
  split_and!.
  - intros fuel Hf. by apply Clear_spec.
  - intros p Hp. split; [by apply modules_live; [apply Hc|]|].
    by apply lookup_free_all_elem.
  - intros q Hq. by apply lookup_free_all.
Qed.

Lemma destructor_destroys_exactly_the_records_witness :
  let s := mkState (<[40 := mkDebuggerModule 1 7 false]> three_records)
                   (dmt three_modules) in
  consistent s ∧
  ∃ s',
    (∀ fuel, (length (modules s) < fuel)%nat →
             DebuggerModuleTable_dtor fuel s = Done () s') ∧
    (∀ p, p ∈ modules s → is_Some (mem s !! p) ∧ mem s' !! p = None) ∧
    (∀ q, q ∉ modules s → mem s' !! q = mem s !! q).
Proof.
  intros s.
  assert (Hc : consistent s) by (apply consistentb_sound; vm_compute; reflexivity).
  split; [exact Hc|].
  exact (destructor_destroys_exactly_the_records s Hc).
Defined.

(** ** The new registry *)

(** X10. On the registry the constructor makes, over any store: both lookups
    return not-found for every module and domain, the iteration yields
    nothing, and [RemoveModule], [RemoveModules] and [Clear] return with the
    state unchanged, given fuel for one step. *)
Theorem new_registry_is_empty (h : gmap TADDR DebuggerModule) (fuel : nat) :
  (0 < fuel)%nat →
  (∀ m, GetModule m (fresh h) = Done None (fresh h)) ∧
  (∀ m d, GetModule2 fuel m d (fresh h) = Done None (fresh h)) ∧
  enumerate fuel (fresh h) = Done [] (fresh h) ∧
  (∀ m d, RemoveModule fuel m d (fresh h) = Done () (fresh h)) ∧
  (∀ d, RemoveModules fuel d (fresh h) = Done () (fresh h)) ∧
  Clear fuel (fresh h) = Done () (fresh h).
Proof.
  intros Hf. pose proof (fresh_consistent h) as Hc.
  assert (Hnil : modules (fresh h) = []).
  { unfold modules, fresh, DebuggerModuleTable_ctor. cbn [dmt]. by rewrite entries_ctor. }
  assert (Hlen : (length (modules (fresh h)) < fuel)%nat) by (rewrite Hnil; simpl; lia).
  split_and!.
  - intros m. rewrite GetModule_spec; [by rewrite Hnil|apply Hc|].
    rewrite (cons_buckets _ Hc). lia.
  - intros m d. rewrite GetModule2_spec; [by rewrite Hnil|apply Hc|done].
  - unfold enumerate. destruct (GetFirstModule_at (fresh h)) as (o & hf & Hrun & Hat).
    rewrite (bind_Done _ _ _ _ _ Hrun).
    assert (Hix : indexed (dmt (fresh h)) = []).
    { apply indexed_nil. unfold fresh, DebuggerModuleTable_ctor. cbn [dmt].
      apply entries_ctor. }
    rewrite Hix in Hat.
    by rewrite (enumerate_loop_spec (fresh h) [] fuel o hf [] (eq_sym (eq_sym Hix)) Hat
                  ltac:(simpl; lia)).
  - intros m d. destruct (RemoveModule_spec m d (fresh h) Hc) as (s' & Hrun & _ & _ & _ & Hno).
    rewrite (Hrun fuel Hlen). f_equal. apply Hno. by rewrite Hnil.
  - intros d.
    destruct (RemoveModules_spec d (fresh h) Hc) as (s' & Hrun & _ & _ & _ & Hstep).
    unfold RemoveModules_step in Hstep. rewrite Hnil in Hstep. simpl in Hstep. subst s'.
    apply Hrun. rewrite Hnil. simpl. lia.
  - rewrite (Clear_spec fuel _ Hc Hlen). rewrite Hnil. reflexivity.
Qed.

Lemma new_registry_is_empty_witness :
  (0 < 1)%nat ∧
  (∀ m, GetModule m (fresh three_records) = Done None (fresh three_records)) ∧
  (∀ m d, GetModule2 1 m d (fresh three_records) = Done None (fresh three_records)) ∧
  enumerate 1 (fresh three_records) = Done [] (fresh three_records) ∧
  (∀ m d, RemoveModule 1 m d (fresh three_records) = Done () (fresh three_records)) ∧
  (∀ d, RemoveModules 1 d (fresh three_records) = Done () (fresh three_records)) ∧
  Clear 1 (fresh three_records) = Done () (fresh three_records).
Proof.
  split; [lia|]. apply (new_registry_is_empty three_records 1). lia.
Defined.

(** ** Bulk removal and the single-module path *)

Lemma first_such_head_keep {A} (f : A → bool) (l : list A) :
  first_such f l = head (keep f l).
Proof. induction l as [|x l IH]; simpl; [done|]. by destruct (f x). Qed.

Lemma RemoveModules_result_unique D s s1 s2 :
  RemoveModules_result D s s1 → RemoveModules_result D s s2 → s1 = s2.
Proof.
  intros (H1 & _) (H2 & _).
  set (n := ((length (modules s) + 1) * (length (modules s) + 1))%nat).
  specialize (H1 n n ltac:(unfold n; nia) ltac:(done)).
  specialize (H2 n n ltac:(unfold n; nia) ltac:(done)).
  rewrite H1 in H2. by injection H2.
Qed.

(** X11. When exactly one record of a consistent registry belongs to the
    domain, [RemoveModules(domain)] does what [RemoveModule] does for that
    record's module and the domain: the two calls return the same state. *)
Theorem RemoveModules_of_one_record (D : PTR_AppDomain) (s : State)
    (p : PTR_DebuggerModule) (dm : DebuggerModule) :
  consistent s →
  keep (in_domain (mem s) D) (modules s) = [p] →
  mem s !! p = Some dm →
  ∀ fuel, ((length (modules s) + 1) * (length (modules s) + 1) ≤ fuel)%nat →
    ∃ s', RemoveModule fuel (m_pRuntimeModule dm) D s = Done () s' ∧
          RemoveModules fuel D s = Done () s'.
Proof.
  intros Hc Hkeep Hdm fuel Hf.
  destruct (RemoveModules_restart D _ s eq_refl Hc) as (s' & Hres & Hstep).
  unfold RemoveModules_step in Hstep.
  rewrite first_such_head_keep, Hkeep in Hstep. simpl in Hstep.
  destruct Hstep as (dm' & s1 & Hdm' & Hrun1 & Hh1 & Hm1 & Hlen1 & Hres1).
  assert (dm' = dm) as -> by congruence.
  destruct (RemoveModule_spec (m_pRuntimeModule dm) D s Hc) as (s1' & Hrun1' & _ & _ & Hc1 & _).
  assert (s1' = s1) as ->.
  { specialize (Hrun1 fuel ltac:(nia)). specialize (Hrun1' fuel ltac:(nia)).
    rewrite Hrun1 in Hrun1'. by injection Hrun1'. }
  assert (Hnone : first_such (in_domain (mem s1) D) (modules s1) = None).
  { apply first_such_None. intros q Hq. rewrite Hm1 in Hq.
    assert (Hq' : q ∈ modules s) by (by apply remove_first_subseteq in Hq).
    assert (Hlk : mem s1 !! q = mem s !! q).
    { rewrite Hh1. apply lookup_delete_ne. intros <-.
      assert (Hfs : first_such (in_domain (mem s) D) (modules s) = Some p)
        by (by rewrite first_such_head_keep, Hkeep).
      apply first_such_Some in Hfs as (l1 & l2 & Hl & Hfp & Hl1).
      rewrite Hl, remove_first_middle in Hq by done.
      pose proof (cons_nodup _ Hc) as Hn. rewrite Hl in Hn.
      apply NoDup_app in Hn as (_ & Hn12 & Hn2). apply NoDup_cons in Hn2 as [Hn2 _].
      apply elem_of_app in Hq as [Hq|Hq]; [|done]. apply (Hn12 _ Hq). left. }
    unfold in_domain. rewrite Hlk. fold (in_domain (mem s) D q).
    destruct (in_domain (mem s) D q) eqn:E; [|done].
    assert (Hin : q ∈ keep (in_domain (mem s) D) (modules s)) by (by apply elem_of_keep).
    rewrite Hkeep in Hin. apply list_elem_of_singleton in Hin as ->.
    rewrite Hh1, lookup_delete_eq in Hlk. rewrite Hdm in Hlk. done. }
  destruct (RemoveModules_restart D _ s1 eq_refl Hc1) as (s1'' & Hres1' & Hstep1).
  unfold RemoveModules_step in Hstep1. rewrite Hnone in Hstep1. subst s1''.
  pose proof (RemoveModules_result_unique D s1 s' s1 Hres1 Hres1') as ->.
  exists s1. split; [apply Hrun1; nia|].
  destruct Hres as (Hrun & _). apply (Hrun fuel fuel); [nia|done].
Qed.

Lemma RemoveModules_of_one_record_witness :
  consistent three_modules ∧
  keep (in_domain (mem three_modules) 8) (modules three_modules) = [30] ∧
  mem three_modules !! 30 = Some (mkDebuggerModule 1 8 true) ∧
  ((length (modules three_modules) + 1) * (length (modules three_modules) + 1) ≤ 16)%nat ∧
  ∃ s', RemoveModule 16 1 8 three_modules = Done () s' ∧
        RemoveModules 16 8 three_modules = Done () s'.
Proof.
  assert (Hf : ((length (modules three_modules) + 1)
                * (length (modules three_modules) + 1) ≤ 16)%nat) by (vm_compute; lia).
  split; [exact three_modules_consistent|]. split; [reflexivity|].
  split; [reflexivity|]. split; [exact Hf|].
  exact (RemoveModules_of_one_record 8 three_modules 30 (mkDebuggerModule 1 8 true)
           three_modules_consistent eq_refl eq_refl 16 Hf).
Defined.

(** ** Removing the modules of two domains *)

Lemma lookup_free_all_decide ps (h : gmap TADDR DebuggerModule) q :
  free_all ps h !! q = if decide (q ∈ ps) then None else h !! q.
Proof.
  case_decide; [by apply lookup_free_all_elem|by apply lookup_free_all].
Qed.

Lemma keep_comm {A} (f g : A → bool) (l : list A) :
  keep f (keep g l) = keep g (keep f l).
Proof.
  induction l as [|x l IH]; simpl; [done|].
  destruct (f x) eqn:Ef, (g x) eqn:Eg; simpl; rewrite ?Ef, ?Eg, ?IH; done.
Qed.

Lemma RemoveModules_twice D1 D2 s :
  consistent s →
  ∃ s1 s2,
    (∀ fuel, ((length (modules s) + 1) * (length (modules s) + 1) ≤ fuel)%nat →
             (RemoveModules fuel D1 ≫= λ _, RemoveModules fuel D2) s = Done () s2) ∧
    RemoveModules_result D1 s s1 ∧
    modules s2 = keep (λ p, negb (in_domain (mem s) D2 p))
                   (keep (λ p, negb (in_domain (mem s) D1 p)) (modules s)) ∧
    (∀ q, mem s2 !! q =
          if decide (q ∈ modules s ∧ (in_domain (mem s) D1 q = true
                                      ∨ in_domain (mem s) D2 q = true))
          then None else mem s !! q).
Proof.
  intros Hc.
  destruct (RemoveModules_restart D1 _ s eq_refl Hc) as (s1 & Hres1 & _).
  pose proof Hres1 as (Hrun1 & Hm1 & Hh1 & Hc1).
  destruct (RemoveModules_restart D2 _ s1 eq_refl Hc1) as (s2 & (Hrun2 & Hm2 & Hh2 & Hc2) & _).
  assert (Hlen1 : (length (modules s1) ≤ length (modules s))%nat).
  { rewrite Hm1. pose proof (length_keep_negb (in_domain (mem s) D1) (modules s)). lia. }
  assert (Hsame : ∀ q, q ∈ modules s1 →
                       in_domain (mem s1) D2 q = in_domain (mem s) D2 q).
  { intros q Hq. unfold in_domain. rewrite Hh1. rewrite Hm1 in Hq.
    by rewrite (in_domain_after_RemoveModules D1 s q Hq). }
  exists s1, s2. split_and!; [|done| |].
  - intros fuel Hf. unfold RemoveModules at 1.
    rewrite (bind_Done _ _ _ _ _ (Hrun1 fuel fuel ltac:(nia) Hf)).
    apply (Hrun2 fuel fuel); nia.
  - rewrite Hm2. rewrite (keep_ext _ (λ p, negb (in_domain (mem s) D2 p)) (modules s1)).
    + by rewrite Hm1.
    + intros q Hq. by rewrite Hsame.
  - intros q. rewrite Hh2.
    rewrite (keep_ext (in_domain (mem s1) D2) (in_domain (mem s) D2) (modules s1)) by done.
    rewrite Hm1, Hh1, !lookup_free_all_decide.
    repeat case_decide; try done; exfalso;
      repeat match goal with
             | H : context [_ ∈ keep _ _] |- _ => rewrite !elem_of_keep in H
             end;
      destruct (in_domain (mem s) D1 q) eqn:E1, (in_domain (mem s) D2 q) eqn:E2;
      simpl in *; tauto.
Qed.

(** X12. Removing the modules of two domains from a consistent registry
    gives the same records in the table, in the same order, and the same
    store, whichever domain is removed first. *)
Theorem RemoveModules_order_is_irrelevant (D1 D2 : PTR_AppDomain) (s : State) :
  consistent s →
  ∃ s12 s21,
    (∀ fuel, ((length (modules s) + 1) * (length (modules s) + 1) ≤ fuel)%nat →
       (RemoveModules fuel D1 ≫= λ _, RemoveModules fuel D2) s = Done () s12 ∧
       (RemoveModules fuel D2 ≫= λ _, RemoveModules fuel D1) s = Done () s21) ∧
    modules s12 = modules s21 ∧
    mem s12 = mem s21.
Proof.
  intros Hc.
  destruct (RemoveModules_twice D1 D2 s Hc) as (s1 & s12 & Hrun12 & _ & Hm12 & Hh12).
  destruct (RemoveModules_twice D2 D1 s Hc) as (s2 & s21 & Hrun21 & _ & Hm21 & Hh21).
  exists s12, s21. split_and!.
  - intros fuel Hf. split; [by apply Hrun12|by apply Hrun21].
  - rewrite Hm12, Hm21. apply keep_comm.
  - apply map_eq. intros q. rewrite Hh12, Hh21.
    repeat case_decide; try done; exfalso; tauto.
Qed.

Lemma RemoveModules_order_is_irrelevant_witness :
  consistent three_modules ∧
  ∃ s12 s21,
    (∀ fuel, ((length (modules three_modules) + 1)
              * (length (modules three_modules) + 1) ≤ fuel)%nat →
       (RemoveModules fuel 7 ≫= λ _, RemoveModules fuel 8) three_modules = Done () s12 ∧
       (RemoveModules fuel 8 ≫= λ _, RemoveModules fuel 7) three_modules = Done () s21) ∧
    modules s12 = modules s21 ∧
    mem s12 = mem s21.
Proof.
  split; [exact three_modules_consistent|].
  exact (RemoveModules_order_is_irrelevant 7 8 three_modules three_modules_consistent).
Defined.

(** ** Insertion undone by removal *)

(** X13. A live record that is not yet entered is added to a consistent
    registry and then removed with its own module and domain.  The removal
    takes out the record just added, not an older record for the same pair:
    the table points to the records it pointed to at the start, in the same
    order, the added record is destroyed, and nothing else in the store
    changes. *)
Theorem AddModule_then_RemoveModule (s : State) (p : PTR_DebuggerModule)
    (dm : DebuggerModule) :
  consistent s →
  mem s !! p = Some dm →
  p ∉ modules s →
  ∃ s1 s2,
    AddModule true p s = Done () s1 ∧
    (∀ fuel, (S (length (modules s)) < fuel)%nat →
       RemoveModule fuel (m_pRuntimeModule dm) (m_pAppDomain dm) s1 = Done () s2) ∧
    modules s2 = modules s ∧
    mem s2 = delete p (mem s) ∧
    consistent s2.
Proof.
  intros Hc Hdm Hnotin.
  destruct (AddModule_spec s p dm ltac:(rewrite (cons_buckets _ Hc); lia) Hdm)
    as (s1 & l1 & l2 & Hrun & Hh & _ & Hl & Hl' & _ & Hbefore).
  pose proof (AddModule_consistent s p dm s1 Hc Hdm Hnotin Hrun) as Hc1.
  specialize (Hbefore (cons_placed _ Hc)).
  destruct (RemoveModule_spec (m_pRuntimeModule dm) (m_pAppDomain dm) s1 Hc1)
    as (s2 & Hrun2 & Hm2 & Hh2 & Hc2 & _).
  assert (Hp : is_for (mem s) (m_pRuntimeModule dm) (m_pAppDomain dm) p = true).
  { apply is_for_true. eauto. }
  assert (Hl1 : ∀ q, q ∈ l1 →
                  is_for (mem s) (m_pRuntimeModule dm) (m_pAppDomain dm) q = false).
  { intros q Hq. by apply is_for_false_of_module, Hbefore. }
  rewrite Hh, Hl' in Hm2, Hh2.
  rewrite remove_first_middle in Hm2 by done.
  unfold free_first in Hh2. rewrite first_such_middle in Hh2 by done.
  exists s1, s2. split_and!; try done.
  - intros fuel Hf. apply Hrun2. rewrite Hl', length_app. simpl.
    rewrite Hl, length_app in Hf. lia.
  - by rewrite Hm2, Hl.
Qed.

Lemma AddModule_then_RemoveModule_witness :
  let s := mkState (<[40 := mkDebuggerModule 1 7 false]> three_records)
                   (dmt three_modules) in
  consistent s ∧ mem s !! 40 = Some (mkDebuggerModule 1 7 false) ∧ (40 ∉ modules s) ∧
  ∃ s1 s2,
    AddModule true 40 s = Done () s1 ∧
    (∀ fuel, (S (length (modules s)) < fuel)%nat →
       RemoveModule fuel 1 7 s1 = Done () s2) ∧
    modules s2 = modules s ∧
    mem s2 = delete 40 (mem s) ∧
    consistent s2.
Proof.
  intros s.
  assert (Hc : consistent s) by (apply consistentb_sound; vm_compute; reflexivity).
  assert (Hn : 40 ∉ modules s).
  { vm_compute. intros H. repeat (apply elem_of_cons in H as [H|H]; [discriminate|]).
    by apply elem_of_nil in H. }
  split; [exact Hc|]. split; [reflexivity|]. split; [exact Hn|].
  exact (AddModule_then_RemoveModule s 40 (mkDebuggerModule 1 7 false) Hc eq_refl Hn).
Defined.

(** ** Removing twice *)

(** X14. When a consistent registry holds at most one record for a
    (module, domain) pair, a second [RemoveModule] for the pair finds nothing
    to do: removing twice leaves the state that removing once leaves. *)
Theorem RemoveModule_twice_is_once (m : PTR_Module) (d : PTR_AppDomain) (s : State) :
  consistent s →
  (∀ x y, x ∈ modules s → y ∈ modules s →
          is_for (mem s) m d x = true → is_for (mem s) m d y = true → x = y) →
  ∀ fuel, (length (modules s) < fuel)%nat →
    ∃ s', RemoveModule fuel m d s = Done () s' ∧
          (RemoveModule fuel m d ≫= λ _, RemoveModule fuel m d) s = Done () s'.
Proof.
  intros Hc Hu fuel Hf.
  destruct (RemoveModule_spec m d s Hc) as (s' & Hrun & Hm & Hh & Hc' & _).
  destruct (RemoveModule_spec m d s' Hc') as (s2 & Hrun' & _ & _ & _ & Hno).
  assert (Hlen' : (length (modules s') ≤ length (modules s))%nat).
  { rewrite Hm. destruct (first_such (is_for (mem s) m d) (modules s)) as [x|] eqn:Hx.
    - pose proof (length_remove_first _ _ _ Hx). lia.
    - by rewrite remove_first_None. }
  assert (Hnone : first_such (is_for (mem s') m d) (modules s') = None).
  { apply first_such_None. intros q Hq.
    rewrite (is_for_lookup (mem s') (mem s)).
    - rewrite Hm in Hq. revert q Hq. apply remove_first_unique; [apply Hc|].
      intros x y Hx Hy. by apply Hu.
    - rewrite Hh. rewrite Hm in Hq. apply lookup_after_remove_first; [apply Hc|done]. }
  rewrite (Hno Hnone) in Hrun'.
  exists s'. split; [by apply Hrun|].
  rewrite (bind_Done _ _ _ _ _ (Hrun fuel Hf)). apply Hrun'. lia.
Qed.

Lemma RemoveModule_twice_is_once_witness :
  consistent three_modules ∧
  (∀ x y, x ∈ modules three_modules → y ∈ modules three_modules →
          is_for (mem three_modules) 1 7 x = true →
          is_for (mem three_modules) 1 7 y = true → x = y) ∧
  (length (modules three_modules) < 4)%nat ∧
  ∃ s', RemoveModule 4 1 7 three_modules = Done () s' ∧
        (RemoveModule 4 1 7 ≫= λ _, RemoveModule 4 1 7) three_modules = Done () s'.
Proof.
  assert (Hu : ∀ x y, x ∈ modules three_modules → y ∈ modules three_modules →
                 is_for (mem three_modules) 1 7 x = true →
                 is_for (mem three_modules) 1 7 y = true → x = y).
  { intros x y Hx Hy. vm_compute in Hx, Hy.
    repeat (apply elem_of_cons in Hx as [->|Hx]);
      repeat (apply elem_of_cons in Hy as [->|Hy]);
      try (by apply elem_of_nil in Hx); try (by apply elem_of_nil in Hy);
      vm_compute; congruence. }
  assert (Hf : (length (modules three_modules) < 4)%nat) by (vm_compute; lia).
  split; [exact three_modules_consistent|]. split; [exact Hu|]. split; [exact Hf|].
  exact (RemoveModule_twice_is_once 1 7 three_modules three_modules_consistent Hu 4 Hf).
Defined.

(** ** Entering one record twice *)

Lemma delete_entry_placed s l1 p e l2 dm :
  placed s →
  indexed (dmt s) = l1 ++ (p, e) :: l2 →
  mem s !! CHashTable.module e = Some dm →
  ∃ t', Delete (HASH (m_pRuntimeModule dm)) p (dmt s) = Some t' ∧
        entries t' = l1.*2 ++ l2.*2.
Proof.
  intros Hp Hix Hdm.
  destruct (placed_indexed _ _ _ _ _ Hp Hix) as (dm' & Hdm' & Hbk).
  rewrite Hdm in Hdm'. injection Hdm' as <-.
  destruct (indexed_split _ _ _ _ _ Hix) as (c & Hc & He & Hcat).
  unfold Delete. rewrite Hbk, decide_True by done. rewrite Hc.
  rewrite decide_True by (by eapply lookup_lt_Some).
  eexists. split; [done|]. done.
Qed.

(** [RemoveModule] on a table whose entries are placed, be it the only owner
    of its records or not. *)
Lemma RemoveModule_loop_placed m d s :
  placed s → ∀ r pDME hf pre,
  indexed (dmt s) = pre ++ r →
  at_cursor (dmt s) pDME hf r →
  ∃ s', (∀ fuel, (length r < fuel)%nat →
           RemoveModule_loop fuel m d pDME hf s = Done () s') ∧
        modules s' = (CHashTable.module <$> pre.*2)
                       ++ remove_first (is_for (mem s) m d) (CHashTable.module <$> r.*2) ∧
        mem s' = free_first (is_for (mem s) m d) (CHashTable.module <$> r.*2) (mem s).
Proof.
  intros Hp. induction r as [|[p e] r IH]; intros pDME hf pre Hix Hat; simpl in Hat.
  - subst pDME. exists s. split_and!; try done.
    + intros [|fuel] Hf; [simpl in Hf; lia|done].
    + unfold modules. simpl. by rewrite <- indexed_snd, Hix, !app_nil_r.
  - destruct Hat as [-> Hrest].
    destruct (placed_indexed _ _ _ _ _ Hp Hix) as (dm & Hdm & _).
    assert (Hfor : is_for (mem s) m d (CHashTable.module e)
                   = (m_pRuntimeModule dm =? m) && (m_pAppDomain dm =? d)).
    { unfold is_for. by rewrite Hdm. }
    remember (is_for (mem s) m d) as f eqn:Ef.
    unfold free_first. cbn [fmap list_fmap snd first_such remove_first].
    rewrite Hfor.
    destruct ((m_pRuntimeModule dm =? m) && (m_pAppDomain dm =? d)) eqn:E.
    + destruct (delete_entry_placed _ _ _ _ _ _ Hp Hix Hdm) as (t' & Hdel & Hent).
      exists (mkState (delete (CHashTable.module e) (mem s)) t').
      split_and!; try done.
      * intros [|fuel] Hf; [simpl in Hf; lia|]. simpl.
        rewrite (bind_Done _ _ _ _ _ (entry_module_Done _ _ _ (indexed_EntryPtr _ _ _ _ _ Hix))).
        rewrite (bind_Done _ _ _ _ _ (GetRuntimeModule_Done _ _ _ Hdm)).
        rewrite (bind_Done _ _ _ _ _ (GetAppDomain_Done _ _ _ Hdm)).
        rewrite E.
        unfold mbind, M_bind, DeleteInteropSafe, upd_table. rewrite Hdm. simpl.
        by rewrite Hdel.
      * unfold modules. simpl. by rewrite Hent, fmap_app.
    + pose proof (FindNextEntry_at (dmt s) hf) as Hnext. rewrite Hrest in Hnext.
      destruct (FindNextEntry (dmt s) hf) as [e' hf'] eqn:Hnx.
      destruct (IH e' hf' (pre ++ [(p, e)])) as (s' & Hrun & Hm & Hh);
        [by rewrite <- app_assoc|done|].
      exists s'. split_and!; try done.
      * intros [|fuel] Hf; [simpl in Hf; lia|]. simpl.
        rewrite (bind_Done _ _ _ _ _ (entry_module_Done _ _ _ (indexed_EntryPtr _ _ _ _ _ Hix))).
        rewrite (bind_Done _ _ _ _ _ (GetRuntimeModule_Done _ _ _ Hdm)).
        rewrite (bind_Done _ _ _ _ _ (GetAppDomain_Done _ _ _ Hdm)).
        rewrite E. unfold mbind, M_bind, FindNextEntry_. rewrite Hnx.
        apply Hrun. simpl in Hf. lia.
      * rewrite Hm, !fmap_app. simpl. by rewrite <- app_assoc.
Qed.

(** A scan for a pair that meets an entry whose record is destroyed, before
    any record for the pair, reads that record. *)
Lemma GetModule2_loop_dangling m d s p e r2 : ∀ r1 fuel pDME hf pre,
  indexed (dmt s) = pre ++ r1 ++ (p, e) :: r2 →
  at_cursor (dmt s) pDME hf (r1 ++ (p, e) :: r2) →
  (∀ q, q ∈ CHashTable.module <$> r1.*2 →
        is_Some (mem s !! q) ∧ is_for (mem s) m d q = false) →
  mem s !! CHashTable.module e = None →
  (length r1 < fuel)%nat →
  GetModule2_loop fuel m d pDME hf s = Undefined.
Proof.
  induction r1 as [|[p1 e1] r1 IH]; intros fuel pDME hf pre Hix Hat Hr1 Hdead Hf;
    destruct fuel as [|fuel]; try (simpl in Hf; lia); simpl in Hat;
    destruct Hat as [-> Hrest]; simpl.
  - rewrite app_nil_l in Hix.
    rewrite (bind_Done _ _ _ _ _ (entry_module_Done _ _ _ (indexed_EntryPtr _ _ _ _ _ Hix))).
    unfold mbind, M_bind, GetRuntimeModule, get_opt. by rewrite Hdead.
  - rewrite <- app_comm_cons in Hix.
    destruct (Hr1 (CHashTable.module e1)) as [[dm1 Hdm1] Hnot]; [simpl; left|].
    rewrite (bind_Done _ _ _ _ _ (entry_module_Done _ _ _ (indexed_EntryPtr _ _ _ _ _ Hix))).
    rewrite (bind_Done _ _ _ _ _ (GetRuntimeModule_Done _ _ _ Hdm1)).
    rewrite (bind_Done _ _ _ _ _ (GetAppDomain_Done _ _ _ Hdm1)).
    unfold is_for in Hnot. rewrite Hdm1 in Hnot. rewrite Hnot.
    unfold mbind, M_bind, FindNextEntry_.
    pose proof (FindNextEntry_at (dmt s) hf) as Hnext. rewrite Hrest in Hnext.
    destruct (FindNextEntry (dmt s) hf) as [e' hf'].
    apply (IH fuel e' hf' (pre ++ [(p1, e1)])); [by rewrite <- app_assoc|done| |done|].
    + intros q Hq. apply Hr1. simpl. by right.
    + simpl in Hf. lia.
Qed.

(** X15. [AddModule] makes no check: the same live record can be entered a
    second time.  After that, one [RemoveModule] for the record's module and
    domain destroys the record and unlinks one of its two entries; the other
    entry stays in the table and points to the destroyed record, and the next
    lookup for that module and domain reads through it. *)
Theorem entering_a_record_twice_leaves_a_dangling_entry (s : State)
    (p : PTR_DebuggerModule) (dm : DebuggerModule) :
  consistent s →
  mem s !! p = Some dm →
  p ∉ modules s →
  ∃ s3,
    (∀ fuel, (S (S (length (modules s))) < fuel)%nat →
       (AddModule true p ≫= λ _, AddModule true p ≫= λ _,
        RemoveModule fuel (m_pRuntimeModule dm) (m_pAppDomain dm)) s = Done () s3) ∧
    p ∈ modules s3 ∧
    mem s3 !! p = None ∧
    (∀ fuel, (S (length (modules s)) < fuel)%nat →
       GetModule2 fuel (m_pRuntimeModule dm) (m_pAppDomain dm) s3 = Undefined).
Proof.
  intros Hc Hdm Hnotin.
  assert (Hb : (0 < m_iBuckets (dmt s))%nat) by (rewrite (cons_buckets _ Hc); lia).
  destruct (AddModule_spec s p dm Hb Hdm)
    as (s1 & l1 & l2 & Hrun1 & Hh1 & Hlen1 & Hl & Hl1 & Hp1 & Hbefore1).
  specialize (Hp1 (cons_placed _ Hc)). specialize (Hbefore1 (cons_placed _ Hc)).
  rewrite <- Hh1 in Hdm.
  destruct (AddModule_spec s1 p dm ltac:(rewrite Hlen1; lia) Hdm)
    as (s2 & k1 & k2 & Hrun2 & Hh2 & _ & Hk & Hk2 & Hp2 & Hbefore2).
  specialize (Hp2 Hp1). specialize (Hbefore2 Hp1).
  rewrite <- Hh2 in Hdm.
  set (m := m_pRuntimeModule dm) in *. set (d := m_pAppDomain dm) in *.
  pose proof (FindFirstEntry_at (dmt s2)) as Hat.
  destruct (FindFirstEntry (dmt s2)) as [e0 hf0] eqn:Hfst.
  destruct (RemoveModule_loop_placed m d s2 Hp2 (indexed (dmt s2)) e0 hf0 [])
    as (s3 & Hrun3 & Hm3 & Hh3); [done|done|].
  rewrite indexed_snd in Hm3, Hh3. fold (modules s2) in Hm3, Hh3.
  assert (Hfor : is_for (mem s2) m d p = true) by (apply is_for_true; eauto).
  assert (Hk1 : ∀ q, q ∈ k1 → is_for (mem s2) m d q = false).
  { intros q Hq. apply is_for_false_of_module. rewrite Hh2. by apply Hbefore2. }
  simpl in Hm3. rewrite Hk2, remove_first_middle in Hm3 by done.
  unfold free_first in Hh3. rewrite Hk2, first_such_middle in Hh3 by done.
  rewrite <- Hk, Hl1 in Hm3. rewrite Hh2, Hh1 in Hh3.
  exists s3. split_and!.
  - intros fuel Hf. rewrite (bind_Done _ _ _ _ _ Hrun1), (bind_Done _ _ _ _ _ Hrun2).
    unfold RemoveModule, mbind, M_bind, FindFirstEntry_. rewrite Hfst.
    apply Hrun3. rewrite length_indexed.
    assert (Hlen1' : length (modules s1) = S (length (modules s))).
    { rewrite Hl1, Hl, !length_app. simpl. lia. }
    assert (Hlen2 : length (modules s2) = S (S (length (modules s)))).
    { rewrite <- Hlen1', Hk2, Hk, !length_app. simpl. lia. }
    rewrite <- (length_fmap CHashTable.module). fold (modules s2). lia.
  - rewrite Hm3. apply elem_of_app. right. left.
  - rewrite Hh3. apply lookup_delete_eq.
  - intros fuel Hf.
    destruct (modules_split s3 l1 p l2 Hm3) as (r1 & [pp e] & r2 & Hix & -> & Hpe & ->).
    simpl in Hpe. unfold GetModule2, mbind, M_bind, FindFirstEntry_.
    pose proof (FindFirstEntry_at (dmt s3)) as Hat3.
    destruct (FindFirstEntry (dmt s3)) as [e3 hf3]. rewrite Hix in Hat3.
    apply (GetModule2_loop_dangling m d s3 pp e r2 r1 fuel e3 hf3 []); try done.
    + intros q Hq.
      assert (Hqs : q ∈ modules s) by (rewrite Hl; apply elem_of_app; by left).
      assert (Hlk : mem s3 !! q = mem s !! q).
      { rewrite Hh3. apply lookup_delete_ne. intros <-. by apply Hnotin. }
      split.
      * rewrite Hlk. by apply modules_live; [apply Hc|].
      * rewrite (is_for_lookup _ _ _ _ _ Hlk).
        apply is_for_false_of_module. rewrite <- Hh1, <- Hh2 in Hbefore1.
        rewrite Hh2, Hh1 in Hbefore1. by apply Hbefore1.
    + rewrite <- Hpe, Hh3. apply lookup_delete_eq.
    + rewrite Hl, length_app, !length_fmap in Hf. lia.
Qed.

Lemma entering_a_record_twice_leaves_a_dangling_entry_witness :
  let s := fresh three_records in
  consistent s ∧ mem s !! 10 = Some (mkDebuggerModule 1 7 false) ∧ (10 ∉ modules s) ∧
  ∃ s3,
    (∀ fuel, (S (S (length (modules s))) < fuel)%nat →
       (AddModule true 10 ≫= λ _, AddModule true 10 ≫= λ _, RemoveModule fuel 1 7) s
       = Done () s3) ∧
    10 ∈ modules s3 ∧
    mem s3 !! 10 = None ∧
    (∀ fuel, (S (length (modules s)) < fuel)%nat → GetModule2 fuel 1 7 s3 = Undefined).
Proof.
  intros s.
  assert (Hn : 10 ∉ modules s) by (vm_compute; apply not_elem_of_nil).
  split; [apply fresh_consistent|]. split; [reflexivity|]. split; [exact Hn|].
  exact (entering_a_record_twice_leaves_a_dangling_entry s 10
           (mkDebuggerModule 1 7 false) (fresh_consistent _) eq_refl Hn).
Defined.
